(** * Interview backend: session state machine and response extraction

    A shallow embedding of [backend.py]: the process-wide [InterviewState],
    the four request handlers ([upload_resume], [get_next_question],
    [transcribe_audio], [generate_feedback]) and the helper
    [extract_question_from_response], together with executable models of
    the Python library functions they rely on ([str] methods, [json.loads]
    and [re.search] for the two patterns of the source); and of the
    Streamlit client [app.py], as one run of its [main] on the client's
    and the server's state.

    Python strings are sequences of Unicode code points; they are modelled
    as lists of code points.  Python exceptions do not roll the session
    back, so handlers run in a monad that threads the session through
    both normal and exceptional outcomes. *)

From Stdlib Require Import List Bool Ascii String NArith ZArith Lia.
Import ListNotations.

Set Implicit Arguments.
Set Warnings "-register-all".

(* ================================================================== *)
(** * Part I: definitions *)
(* ================================================================== *)

(** ** Python [str] *)

Module PyStr.

Local Open Scope N_scope.

Definition char := N.
Definition str := list char.

(** Code point of an ASCII character, to write literals. *)
Definition ch (a : ascii) : char := N_of_ascii a.

(** A Python literal made of Latin-1 characters. *)
Definition py (s : string) : str := map ch (list_ascii_of_string s).

Definition DQ : char := 34.        (* the double quote *)
Definition BACKSLASH : char := 92.
Definition QMARK : char := 63.     (* ? *)
Definition DOT : char := 46.
Definition BANG : char := 33.
Definition LBRACE : char := 123.
Definition RBRACE : char := 125.
Definition NEWLINE : char := 10.

(** A literal between double quotes. *)
Definition quoted (s : string) : str := DQ :: py s ++ [DQ].

Definition str_eqb (a b : str) : bool :=
  if list_eq_dec N.eq_dec a b then true else false.

(** [str.isspace] on one code point: the characters [str.strip()] removes. *)
Definition isspace (c : char) : bool :=
  ((9 <=? c) && (c <=? 13) || (28 <=? c) && (c <=? 32)
   || (c =? 133) || (c =? 160) || (c =? 5760)
   || (8192 <=? c) && (c <=? 8202)
   || (c =? 8232) || (c =? 8233) || (c =? 8239) || (c =? 8287)
   || (c =? 12288))%N.

Fixpoint lstrip (s : str) : str :=
  match s with
  | [] => []
  | c :: r => if isspace c then lstrip r else s
  end.

Definition rstrip (s : str) : str := rev (lstrip (rev s)).

(** [s.strip()] *)
Definition strip (s : str) : str := rstrip (lstrip s).

Fixpoint startswith (s p : str) : bool :=
  match p, s with
  | [], _ => true
  | _ :: _, [] => false
  | a :: p', b :: s' => (a =? b)%N && startswith s' p'
  end.

(** [s.endswith(suffix)] *)
Definition endswith (s suffix : str) : bool := startswith (rev s) (rev suffix).

(** [needle in s] for strings: substring test. *)
Fixpoint contains (s needle : str) : bool :=
  startswith s needle ||
  match s with
  | [] => false
  | _ :: r => contains r needle
  end.

(** [s.find(c)] for a one-character needle: the first index, or -1. *)
Fixpoint find (s : str) (c : char) : Z :=
  match s with
  | [] => (-1)%Z
  | x :: r =>
      if (x =? c)%N then 0%Z
      else let i := find r c in if (i =? -1)%Z then (-1)%Z else (i + 1)%Z
  end.

(** [s.rfind(c)]: the last index, or -1. *)
Fixpoint rfind (s : str) (c : char) : Z :=
  match s with
  | [] => (-1)%Z
  | x :: r =>
      let i := rfind r c in
      if (i =? -1)%Z then (if (x =? c)%N then 0%Z else (-1)%Z) else (i + 1)%Z
  end.

(** [s[a:b]] for indices that are not negative (the source only slices
    after checking both against -1). *)
Definition slice (s : str) (a b : Z) : str :=
  firstn (Z.to_nat (b - a)) (skipn (Z.to_nat a) s).

(** [sep.join(parts)] *)
Fixpoint join (sep : str) (parts : list str) : str :=
  match parts with
  | [] => []
  | [p] => p
  | p :: rest => p ++ sep ++ join sep rest
  end.

End PyStr.
Export PyStr.

(** ** Python values and exceptions *)

(** The objects [json.loads] can build.  A [float] is kept as the literal
    it was read from: floating-point arithmetic is not modelled. *)
Inductive pyval :=
| PNone
| PBool (b : bool)
| PInt (z : Z)
| PFloat (lit : str)
| PStr (s : str)
| PList (l : list pyval)
| PDict (d : list (str * pyval)).

(** Exceptions.  The [detail] of an [HTTPException] is either a literal
    of the source or built from the exception being handled, as in
    [detail=str(e)] and [detail=f"...: {str(e)}"]. *)
Inductive exn :=
| HTTPException (status_code : Z) (detail : message)
| JSONDecodeError
| ValueError (msg : string)
| AttributeError
| IndexError
| TypeError
| CollaboratorError        (* raised inside a third-party client *)
with message :=
| Lit (s : string)
| StrOf (e : exn)
| Fmt (prefix : string) (e : exn).

Inductive Result (A : Type) :=
| Return (a : A)
| Raise (e : exn).
Arguments Return {A} a.
Arguments Raise {A} e.

(** [isinstance(e, ValueError)]: [json.JSONDecodeError] subclasses
    [ValueError]. *)
Definition is_ValueError (e : exn) : bool :=
  match e with
  | ValueError _ | JSONDecodeError => true
  | _ => false
  end.

Definition is_JSONDecodeError (e : exn) : bool :=
  match e with
  | JSONDecodeError => true
  | _ => false
  end.

Definition is_HTTPException (e : exn) : bool :=
  match e with
  | HTTPException _ _ => true
  | _ => false
  end.

(** ** Python [dict] built from pairs: a repeated key keeps its first
    position and takes the last value. *)

Fixpoint dict_get (d : list (str * pyval)) (k : str) : option pyval :=
  match d with
  | [] => None
  | (k', v) :: r => if str_eqb k' k then Some v else dict_get r k
  end.

Fixpoint dict_set (d : list (str * pyval)) (k : str) (v : pyval)
  : list (str * pyval) :=
  match d with
  | [] => [(k, v)]
  | (k', v') :: r =>
      if str_eqb k' k then (k', v) :: r else (k', v') :: dict_set r k v
  end.

Definition dict_of_pairs (pairs : list (str * pyval)) : list (str * pyval) :=
  fold_left (fun d kv => dict_set d (fst kv) (snd kv)) pairs [].

Definition pyval_is_str (v : pyval) (s : str) : bool :=
  match v with
  | PStr t => str_eqb t s
  | _ => false
  end.

(** [key in container], for a [str] key. *)
Definition py_in (key : str) (container : pyval) : Result bool :=
  match container with
  | PDict d => Return (match dict_get d key with Some _ => true | None => false end)
  | PList l => Return (existsb (fun v => pyval_is_str v key) l)
  | PStr s => Return (contains s key)
  | _ => Raise TypeError
  end.

(** ** [json.loads] on a [str]

    The decoder is modelled in two passes over the text, both structural:
    a lexer, then a pushdown parser over the tokens.  Between tokens only
    space, tab, newline and carriage return are skipped.  A number is the
    maximal run of number characters, which has to match the decoder's
    number pattern as a whole: no character of such a run can follow a
    number in a document the decoder accepts, so this accepts the same
    texts with the same values.

    Two limits of the interpreter are outside this model: the recursion
    limit, which makes the decoder raise [RecursionError] on containers
    nested deeper than the stack in use allows, and the limit on integer
    literals (4300 digits by default), which makes it raise a
    [ValueError] that is not a [JSONDecodeError].  Neither is caught at
    line 69.  The properties of [extract_question_from_response] below
    therefore take as a premise that the decoder's exception, if any, is
    a [JSONDecodeError] ([loads_caught]), or work with the function once
    the decoder has answered ([extract_after_loads]). *)

Module Json.

Local Open Scope N_scope.

Inductive token :=
| TLBrace | TRBrace | TLBracket | TRBracket | TComma | TColon
| TString (s : str)
| TAtom (v : pyval).

Definition is_ws (c : char) : bool :=
  (c =? 32) || (c =? 9) || (c =? 10) || (c =? 13).

Definition is_digit (c : char) : bool := (48 <=? c) && (c <=? 57).

Definition is_numchar (c : char) : bool :=
  is_digit c || (c =? ch "-") || (c =? ch "+") || (c =? ch ".")
  || (c =? ch "e") || (c =? ch "E").

Definition hex_val (c : char) : option N :=
  if is_digit c then Some (c - 48)
  else if (65 <=? c) && (c <=? 70) then Some (c - 55)
  else if (97 <=? c) && (c <=? 102) then Some (c - 87)
  else None.

Definition hex4 (a b c d : char) : option N :=
  match hex_val a, hex_val b, hex_val c, hex_val d with
  | Some x, Some y, Some z, Some w => Some (((x * 16 + y) * 16 + z) * 16 + w)
  | _, _, _, _ => None
  end.

(** The one-character escapes of a JSON string. *)
Definition simple_escape (c : char) : option char :=
  if c =? DQ then Some DQ
  else if c =? BACKSLASH then Some BACKSLASH
  else if c =? ch "/" then Some (ch "/")
  else if c =? ch "b" then Some 8
  else if c =? ch "f" then Some 12
  else if c =? ch "n" then Some 10
  else if c =? ch "r" then Some 13
  else if c =? ch "t" then Some 9
  else None.

(** A low surrogate escape right after a high surrogate. *)
Definition low_surrogate (s : str) : option (N * str) :=
  match s with
  | b :: u :: h1 :: h2 :: h3 :: h4 :: r =>
      if (b =? BACKSLASH) && (u =? ch "u") then
        match hex4 h1 h2 h3 h4 with
        | Some lo => if (56320 <=? lo) && (lo <=? 57343) then Some (lo, r) else None
        | None => None
        end
      else None
  | _ => None
  end.

(** Digits of a number literal. *)
Fixpoint digits (s : str) : str * str :=
  match s with
  | c :: r => if is_digit c then let (d, t) := digits r in (c :: d, t) else ([], s)
  | [] => ([], [])
  end.

Definition nat_of_digits (d : str) : Z :=
  fold_left (fun acc c => (acc * 10 + Z.of_N (c - 48))%Z) d 0%Z.

(** The decoder's number pattern, matched against a whole literal: an
    optional minus sign; then a single 0 or a digit 1-9 followed by
    digits; then optionally a dot and one or more digits; then optionally
    e or E, an optional sign and one or more digits.  Without fraction
    and exponent the value is an [int]. *)
Definition number_of (lit : str) : option pyval :=
  let (neg, s1) := match lit with
                   | c :: r => if c =? ch "-" then (true, r) else (false, lit)
                   | [] => (false, lit)
                   end in
  let (ip, s2) := digits s1 in
  let int_ok := match ip with
                | [] => false
                | c :: r => negb (c =? 48) || match r with [] => true | _ => false end
                end in
  if negb int_ok then None else
  let frac := match s2 with
              | c :: r =>
                  if c =? ch "." then
                    let (fp, t) := digits r in
                    match fp with [] => None | _ => Some (true, t) end
                  else Some (false, s2)
              | [] => Some (false, s2)
              end in
  match frac with
  | None => None
  | Some (has_frac, s3) =>
      let expo := match s3 with
                  | c :: r =>
                      if (c =? ch "e") || (c =? ch "E") then
                        let r' := match r with
                                  | g :: t => if (g =? ch "-") || (g =? ch "+") then t else r
                                  | [] => r
                                  end in
                        let (ep, t) := digits r' in
                        match ep with [] => None | _ => Some (true, t) end
                      else Some (false, s3)
                  | [] => Some (false, s3)
                  end in
      match expo with
      | Some (has_exp, []) =>
          if has_frac || has_exp then Some (PFloat lit)
          else Some (PInt (if neg then (- nat_of_digits ip)%Z else nat_of_digits ip))
      | _ => None
      end
  end.

Inductive lexmode :=
| LxTok (num : str)     (* between tokens when [num] is empty, else inside
                           a number whose literal so far is [num], reversed *)
| LxStr (acc : str).    (* inside a string; [acc] is its content, reversed *)

Definition cons_tok (t : token) (r : option (list token)) : option (list token) :=
  match r with
  | Some ts => Some (t :: ts)
  | None => None
  end.

Definition starts_number (c : char) (r : str) : bool :=
  is_digit c || (c =? ch "-") && negb (startswith r (py "Infinity")).

Fixpoint lex (m : lexmode) (s : str) {struct s} : option (list token) :=
  match s with
  | [] =>
      match m with
      | LxTok [] => Some []
      | _ => None                       (* unterminated string *)
      end
  | c :: r =>
      match m with
      | LxStr acc =>
          if c =? DQ then cons_tok (TString (rev acc)) (lex (LxTok []) r)
          else if c =? BACKSLASH then
            match r with
            | [] => None
            | e :: r1 =>
                if e =? ch "u" then
                  match r1 with
                  | h1 :: h2 :: h3 :: h4 :: r2 =>
                      match hex4 h1 h2 h3 h4 with
                      | None => None
                      | Some u =>
                          if (55296 <=? u) && (u <=? 56319) then
                            match r2 with
                            | _ :: _ :: _ :: _ :: _ :: _ :: r3 =>
                                match low_surrogate r2 with
                                | Some (lo, _) =>
                                    lex (LxStr ((65536 + ((u - 55296) * 1024 + (lo - 56320))) :: acc)) r3
                                | None => lex (LxStr (u :: acc)) r2
                                end
                            | _ => lex (LxStr (u :: acc)) r2
                            end
                          else lex (LxStr (u :: acc)) r2
                      end
                  | _ => None
                  end
                else
                  match simple_escape e with
                  | Some x => lex (LxStr (x :: acc)) r1
                  | None => None
                  end
            end
          else if c <? 32 then None       (* control character *)
          else lex (LxStr (c :: acc)) r
      | LxTok num =>
          if match num with [] => starts_number c r | _ => true end then
            let num' := c :: num in
            if match r with d :: _ => is_numchar d | [] => false end
            then lex (LxTok num') r
            else match number_of (rev num') with
                 | Some v => cons_tok (TAtom v) (lex (LxTok []) r)
                 | None => None
                 end
          else if is_ws c then lex (LxTok []) r
          else if c =? LBRACE then cons_tok TLBrace (lex (LxTok []) r)
          else if c =? RBRACE then cons_tok TRBrace (lex (LxTok []) r)
          else if c =? ch "[" then cons_tok TLBracket (lex (LxTok []) r)
          else if c =? ch "]" then cons_tok TRBracket (lex (LxTok []) r)
          else if c =? ch "," then cons_tok TComma (lex (LxTok []) r)
          else if c =? ch ":" then cons_tok TColon (lex (LxTok []) r)
          else if c =? DQ then lex (LxStr []) r
          else
            (* the constants, by length *)
            match r with
            | _ :: _ :: r2 =>
                if startswith s (py "NaN") then
                  cons_tok (TAtom (PFloat (py "NaN"))) (lex (LxTok []) r2)
                else
                  match r2 with
                  | _ :: r3 =>
                      if startswith s (py "null") then
                        cons_tok (TAtom PNone) (lex (LxTok []) r3)
                      else if startswith s (py "true") then
                        cons_tok (TAtom (PBool true)) (lex (LxTok []) r3)
                      else
                        match r3 with
                        | _ :: r4 =>
                            if startswith s (py "false") then
                              cons_tok (TAtom (PBool false)) (lex (LxTok []) r4)
                            else
                              match r4 with
                              | _ :: _ :: _ :: r7 =>
                                  if startswith s (py "Infinity") then
                                    cons_tok (TAtom (PFloat (py "Infinity"))) (lex (LxTok []) r7)
                                  else
                                    match r7 with
                                    | _ :: r8 =>
                                        if startswith s (py "-Infinity") then
                                          cons_tok (TAtom (PFloat (py "-Infinity"))) (lex (LxTok []) r8)
                                        else None
                                    | [] => None
                                    end
                              | _ => None
                              end
                        | [] => None
                        end
                  | [] => None
                  end
            | _ => None
            end
      end
  end.

(** The parser: a stack of open containers and what is expected next. *)

Inductive frame :=
| FList (acc : list pyval)                       (* elements so far, reversed *)
| FDictK (acc : list (str * pyval))              (* pairs so far, reversed *)
| FDictV (acc : list (str * pyval)) (key : str). (* ... and a key awaiting its value *)

Inductive expect :=
| EValue            (* a value *)
| EValueOrClose     (* just after an opening bracket *)
| EKeyOrClose       (* just after an opening brace *)
| EKey              (* after a comma inside an object *)
| EColon (k : str)  (* after a key *)
| ESep              (* after a value inside a container *)
| EDone (v : pyval). (* the document is complete *)

(** A value is complete: it goes to the innermost open container. *)
Definition complete (v : pyval) (st : list frame) : option (expect * list frame) :=
  match st with
  | [] => Some (EDone v, [])
  | FList acc :: st' => Some (ESep, FList (v :: acc) :: st')
  | FDictV acc k :: st' => Some (ESep, FDictK ((k, v) :: acc) :: st')
  | FDictK _ :: _ => None
  end.

Definition begin_value (t : token) (st : list frame) : option (expect * list frame) :=
  match t with
  | TAtom v => complete v st
  | TString s => complete (PStr s) st
  | TLBracket => Some (EValueOrClose, FList [] :: st)
  | TLBrace => Some (EKeyOrClose, FDictK [] :: st)
  | _ => None
  end.

Definition step (e : expect) (st : list frame) (t : token)
  : option (expect * list frame) :=
  match e, t with
  | EValue, _ => begin_value t st
  | EValueOrClose, TRBracket =>
      match st with
      | FList _ :: st' => complete (PList []) st'
      | _ => None
      end
  | EValueOrClose, _ => begin_value t st
  | EKeyOrClose, TRBrace =>
      match st with
      | FDictK _ :: st' => complete (PDict []) st'
      | _ => None
      end
  | EKeyOrClose, TString k => Some (EColon k, st)
  | EKey, TString k => Some (EColon k, st)
  | EColon k, TColon =>
      match st with
      | FDictK acc :: st' => Some (EValue, FDictV acc k :: st')
      | _ => None
      end
  | ESep, TComma =>
      match st with
      | FList _ :: _ => Some (EValue, st)
      | FDictK _ :: _ => Some (EKey, st)
      | _ => None
      end
  | ESep, TRBracket =>
      match st with
      | FList acc :: st' => complete (PList (rev acc)) st'
      | _ => None
      end
  | ESep, TRBrace =>
      match st with
      | FDictK acc :: st' => complete (PDict (dict_of_pairs (rev acc))) st'
      | _ => None
      end
  | _, _ => None
  end.

Fixpoint parse (e : expect) (st : list frame) (ts : list token) : option pyval :=
  match ts with
  | [] => match e with EDone v => Some v | _ => None end
  | t :: ts' =>
      match step e st t with
      | Some (e', st') => parse e' st' ts'
      | None => None
      end
  end.

Definition loads (s : str) : Result pyval :=
  match lex (LxTok []) s with
  | None => Raise JSONDecodeError
  | Some ts =>
      match parse EValue [] ts with
      | Some v => Return v
      | None => Raise JSONDecodeError
      end
  end.

(** Invariant of the parser on a text that opens with a brace: the
    outermost open container is an object, and a complete document is
    one. *)
Definition dict_frame (f : frame) : bool :=
  match f with FList _ => false | _ => true end.

Definition open_dict (e : expect) (st : list frame) : Prop :=
  match e with
  | EDone v => st = [] /\ exists d, v = PDict d
  | _ => st <> [] /\ dict_frame (last st (FList [])) = true
  end.

End Json.

(** ** [re.search] for the patterns of the source

    A backtracking matcher for patterns made of single-character atoms,
    greedy one-or-more repetition of an atom, and one capture group:
    all that the two patterns of [extract_question_from_response] use. *)

Module Re.

Local Open Scope N_scope.

Inductive atom :=
| AChar (c : char)             (* a literal character *)
| ANotIn (cs : list char).     (* a negated character class *)

Inductive item :=
| IOne (a : atom)
| IPlus (a : atom)             (* greedy one-or-more *)
| IOpen                        (* start of group 1 *)
| IClose.                      (* end of group 1 *)

Definition pattern := list item.

Definition atom_matches (a : atom) (c : char) : bool :=
  match a with
  | AChar x => c =? x
  | ANotIn cs => negb (existsb (N.eqb c) cs)
  end.

(** Span of group 1, as offsets into the searched text. *)
Record span := { span_start : nat; span_end : nat }.

(** [match_here p s pos g]: match [p] against [s], the text from offset
    [pos] on; [g] holds the group's bounds seen so far.  Repetition takes
    as many characters as it can and gives back one at a time. *)
Fixpoint match_here (p : pattern) : str -> nat -> span -> option span :=
  match p with
  | [] => fun _ _ g => Some g
  | IOpen :: p' => fun s pos g =>
      match_here p' s pos {| span_start := pos; span_end := span_end g |}
  | IClose :: p' => fun s pos g =>
      match_here p' s pos {| span_start := span_start g; span_end := pos |}
  | IOne a :: p' => fun s pos g =>
      match s with
      | c :: s' => if atom_matches a c then match_here p' s' (S pos) g else None
      | [] => None
      end
  | IPlus a :: p' =>
      fix more (s : str) (pos : nat) (g : span) {struct s} : option span :=
        match s with
        | c :: s' =>
            if atom_matches a c then
              match more s' (S pos) g with
              | Some r => Some r
              | None => match_here p' s' (S pos) g
              end
            else None
        | [] => None
        end
  end.

(** The leftmost match: every start offset is tried in turn. *)
Fixpoint search_from (p : pattern) (s : str) (pos : nat) : option span :=
  match match_here p s pos {| span_start := 0; span_end := 0 |} with
  | Some g => Some g
  | None =>
      match s with
      | [] => None
      | _ :: s' => search_from p s' (S pos)
      end
  end.

(** [re.search(p, text)] followed by [.group(1)]: [None] stands for no
    match. *)
Definition search_group1 (p : pattern) (text : str) : option str :=
  match search_from p text 0 with
  | Some g => Some (firstn (span_end g - span_start g) (skipn (span_start g) text))
  | None => None
  end.

(** The pattern written in the source as a double quote, a group of one
    or more non-quote characters and a question mark, a double quote. *)
Definition QUOTED_QUESTION : pattern :=
  [IOne (AChar DQ); IOpen; IPlus (ANotIn [DQ]); IOne (AChar QMARK); IClose;
   IOne (AChar DQ)].

(** The pattern written in the source as a group of one or more
    characters other than dot, exclamation mark and question mark,
    and a question mark. *)
Definition SENTENCE_QUESTION : pattern :=
  [IOpen; IPlus (ANotIn [DOT; BANG; QMARK]); IOne (AChar QMARK); IClose].

(** The ways a pattern can match a text, whatever the order in which
    the matcher tries them. *)
Inductive matches : pattern -> str -> nat -> span -> span -> Prop :=
| matches_nil s pos g : matches [] s pos g g
| matches_open p s pos g r :
    matches p s pos {| span_start := pos; span_end := span_end g |} r ->
    matches (IOpen :: p) s pos g r
| matches_close p s pos g r :
    matches p s pos {| span_start := span_start g; span_end := pos |} r ->
    matches (IClose :: p) s pos g r
| matches_one a p c s pos g r :
    atom_matches a c = true -> matches p s (S pos) g r ->
    matches (IOne a :: p) (c :: s) pos g r
| matches_plus_more a p c s pos g r :
    atom_matches a c = true -> matches (IPlus a :: p) s (S pos) g r ->
    matches (IPlus a :: p) (c :: s) pos g r
| matches_plus_last a p c s pos g r :
    atom_matches a c = true -> matches p s (S pos) g r ->
    matches (IPlus a :: p) (c :: s) pos g r.

(** The bounds of the group before any match. *)
Definition span0 : span := {| span_start := 0; span_end := 0 |}.

End Re.

(** ** [extract_question_from_response] *)

Definition QUESTION_KEY : str := py "question".

Definition extract_question_from_response (response_text : str) : Result pyval :=
  let fallback :=
    (* a question in quotes *)
    match Re.search_group1 Re.QUOTED_QUESTION response_text with
    | Some g => Return (PStr g)
    | None =>
        (* any sentence ending with a question mark *)
        match Re.search_group1 Re.SENTENCE_QUESTION response_text with
        | Some g => Return (PStr (strip g))
        | None => Return (PStr (strip response_text))
        end
    end in
  match Json.loads response_text with
  | Return response_json =>
      match response_json with
      | PDict d =>
          match dict_get d QUESTION_KEY with
          | Some q => Return q
          | None => fallback
          end
      | _ => fallback
      end
  | Raise e => if is_JSONDecodeError e then fallback else Raise e
  end.

(** The statements of [extract_question_from_response] after the JSON
    attempt. *)
Definition extraction_fallback (text : str) : Result pyval :=
  match Re.search_group1 Re.QUOTED_QUESTION text with
  | Some g => Return (PStr g)
  | None =>
      match Re.search_group1 Re.SENTENCE_QUESTION text with
      | Some g => Return (PStr (strip g))
      | None => Return (PStr (strip text))
      end
  end.

(** The function once [json.loads] has answered: [loaded] is what the
    call of line 66 returned or raised.  Only a [JSONDecodeError] is
    caught (line 69); any other exception leaves the function. *)
Definition extract_after_loads (loaded : Result pyval) (response_text : str)
  : Result pyval :=
  match loaded with
  | Return (PDict d) =>
      match dict_get d QUESTION_KEY with
      | Some q => Return q
      | None => extraction_fallback response_text
      end
  | Return _ => extraction_fallback response_text
  | Raise e => if is_JSONDecodeError e then extraction_fallback response_text else Raise e
  end.

(** The callers' two lines after extraction:
    [if not q.endswith('?'): q += '?'].  Only a [str] has the method. *)
Definition ensure_question_mark (q : pyval) : Result str :=
  match q with
  | PStr s => Return (if endswith s [QMARK] then s else s ++ [QMARK])
  | _ => Raise AttributeError
  end.

(** ** The session and the handler monad *)

Inductive role := assistant | user.

(** [class InterviewState]; a turn of [conversation_history] is the pair
    of its ["role"] and ["content"]. *)
Record InterviewState := {
  questions : list str;
  answers : list str;
  current_question : Z;
  resume_text : str;
  conversation_history : list (role * str)
}.

(** [InterviewState()] *)
Definition InterviewState_init : InterviewState :=
  {| questions := []; answers := []; current_question := 0;
     resume_text := []; conversation_history := [] |}.

(** The user prompts sent to the language model, by their variable parts. *)
Inductive prompt :=
| FirstQuestionPrompt (resume : str)
| FollowUpPrompt (resume : str) (conversation_text : str)
| FeedbackPrompt (resume : str) (conversation : str).

(** Calls to the external services, in the order they are made. *)
Inductive call :=
| GroqCall (p : prompt)
| GTTSCall (text : str)
| DeepgramCall
| PdfReaderCall.

Definition is_GroqCall (c : call) : bool :=
  match c with
  | GroqCall _ => true
  | _ => false
  end.

(** A handler computation: from the session, an outcome, the session as
    the computation leaves it (also when it raises) and the calls made. *)
Definition M (A : Type) : Type :=
  InterviewState -> Result A * InterviewState * list call.

Definition result_of {A} (o : Result A * InterviewState * list call) : Result A :=
  fst (fst o).
Definition session_of {A} (o : Result A * InterviewState * list call)
  : InterviewState := snd (fst o).
Definition calls_of {A} (o : Result A * InterviewState * list call) : list call :=
  snd o.

Definition ret {A} (a : A) : M A := fun s => (Return a, s, []).

Definition bind {A B} (m : M A) (k : A -> M B) : M B :=
  fun s =>
    match m s with
    | (Return a, s1, l1) =>
        match k a s1 with
        | (r, s2, l2) => (r, s2, l1 ++ l2)
        end
    | (Raise e, s1, l1) => (Raise e, s1, l1)
    end.

Definition raise {A} (e : exn) : M A := fun s => (Raise e, s, []).

Definition lift {A} (r : Result A) : M A := fun s => (r, s, []).

Definition get : M InterviewState := fun s => (Return s, s, []).

Definition modify (f : InterviewState -> InterviewState) : M unit :=
  fun s => (Return tt, f s, []).

Definition emit (c : call) : M unit := fun s => (Return tt, s, [c]).

Declare Scope handler_scope.
Delimit Scope handler_scope with handler.
Notation "x <- m ;; k" := (bind m (fun x => k))
  (at level 61, m at next level, right associativity) : handler_scope.
Notation "m ;; k" := (bind m (fun _ => k))
  (at level 61, right associativity) : handler_scope.
Local Open Scope handler_scope.

(** [if cond: body] with nothing to do otherwise. *)
Definition when (cond : bool) (body : M unit) : M unit :=
  if cond then body else ret tt.

(** [try: body  except C1 as e: h1  except C2 as e: h2 ...]: the first
    clause whose class matches handles the exception; an exception raised
    by a handler leaves the statement. *)
Definition clause (A : Type) : Type := ((exn -> bool) * (exn -> M A))%type.

Definition try_except {A} (body : M A) (clauses : list (clause A)) : M A :=
  fun s =>
    match body s with
    | (Return a, s1, l1) => (Return a, s1, l1)
    | (Raise e, s1, l1) =>
        match List.find (fun c : clause A => fst c e) clauses with
        | Some c =>
            match snd c e s1 with
            | (r, s2, l2) => (r, s2, l1 ++ l2)
            end
        | None => (Raise e, s1, l1)
        end
    end.

(** [except Exception as e] *)
Definition Exception (e : exn) : bool := true.

Definition bindR {A B} (r : Result A) (k : A -> Result B) : Result B :=
  match r with
  | Return a => k a
  | Raise e => Raise e
  end.

(** [l[i]] with Python's negative indices. *)
Definition list_index {A} (l : list A) (i : Z) : Result A :=
  let n := Z.of_nat (List.length l) in
  let j := if (i <? 0)%Z then (i + n)%Z else i in
  if (j <? 0)%Z then Raise IndexError
  else match nth_error l (Z.to_nat j) with
       | Some x => Return x
       | None => Raise IndexError
       end.

(** Field assignments and appends on [interview_state]. *)
Definition set_resume_text (t : str) (s : InterviewState) : InterviewState :=
  {| questions := questions s; answers := answers s;
     current_question := current_question s; resume_text := t;
     conversation_history := conversation_history s |}.

Definition set_conversation_history (h : list (role * str)) (s : InterviewState)
  : InterviewState :=
  {| questions := questions s; answers := answers s;
     current_question := current_question s; resume_text := resume_text s;
     conversation_history := h |}.

Definition set_questions (q : list str) (s : InterviewState) : InterviewState :=
  {| questions := q; answers := answers s;
     current_question := current_question s; resume_text := resume_text s;
     conversation_history := conversation_history s |}.

Definition set_answers (a : list str) (s : InterviewState) : InterviewState :=
  {| questions := questions s; answers := a;
     current_question := current_question s; resume_text := resume_text s;
     conversation_history := conversation_history s |}.

Definition set_current_question (n : Z) (s : InterviewState) : InterviewState :=
  {| questions := questions s; answers := answers s;
     current_question := n; resume_text := resume_text s;
     conversation_history := conversation_history s |}.

Definition questions_append (q : str) : M unit :=
  modify (fun s => set_questions (questions s ++ [q]) s).

Definition answers_append (a : str) : M unit :=
  modify (fun s => set_answers (answers s ++ [a]) s).

Definition conversation_history_append (r : role) (content : str) : M unit :=
  modify (fun s => set_conversation_history (conversation_history s ++ [(r, content)]) s).

(** ** The external services, as oracles *)

(** What [groq_client.chat.completions.create] does: it raises, or it
    returns a completion whose first choice has a text content or not. *)
Inductive groq_reply :=
| GroqRaises
| GroqNoContent
| GroqContent (content : str).

Inductive completion :=
| Completion (content : option str).

Definition groq_create (groq : prompt -> groq_reply) (p : prompt) : M completion :=
  emit (GroqCall p) ;;
  match groq p with
  | GroqRaises => raise CollaboratorError
  | GroqNoContent => ret (Completion None)
  | GroqContent c => ret (Completion (Some c))
  end.

(** [completion.choices[0].message.content.strip()] *)
Definition content_strip (c : completion) : Result str :=
  match c with
  | Completion (Some t) => Return (strip t)
  | Completion None => Raise AttributeError
  end.

(** An uploaded file: its declared name and type, and its bytes. *)
Record UploadFile := {
  filename : option str;
  content_type : option str;
  file_content : list N
}.

(** [PyPDF2.PdfReader] on the bytes: it raises, or gives the pages; the
    text extraction of a page raises or gives its text. *)
Definition pdf_oracle := list N -> option (list (option str)).

Definition PdfReader (pdf : pdf_oracle) (content : list N) : M (list (option str)) :=
  emit PdfReaderCall ;;
  match pdf content with
  | Some pages => ret pages
  | None => raise CollaboratorError
  end.

Definition extract_text (page : option str) : Result str :=
  match page with
  | Some t => Return t
  | None => Raise CollaboratorError
  end.

(** [gTTS(text, lang='en')] written to a buffer: the audio bytes, or an
    exception. *)
Definition tts_oracle := str -> option (list N).

Definition gTTS (tts : tts_oracle) (text : str) : M (list N) :=
  emit (GTTSCall text) ;;
  match tts text with
  | Some audio => ret audio
  | None => raise CollaboratorError
  end.

(** Deepgram's prerecorded transcription of the bytes with their declared
    type: the transcript of the first alternative, or an exception (from
    the call or from reading the response). *)
Definition deepgram_oracle := list N -> option str -> option str.

Definition transcription_prerecorded (dg : deepgram_oracle) (f : UploadFile) : M str :=
  emit DeepgramCall ;;
  match dg (file_content f) (content_type f) with
  | Some transcript => ret transcript
  | None => raise CollaboratorError
  end.

(** ** The handlers *)

Definition TOTAL_QUESTIONS : Z := 3.

Record upload_response := {
  upload_message : string;
  upload_question : str
}.

(** The loop [for page in pdf_reader.pages: text += page.extract_text()]. *)
Fixpoint extract_pages (pages : list (option str)) (text : str) : Result str :=
  match pages with
  | [] => Return text
  | page :: rest => bindR (extract_text page) (fun t => extract_pages rest (text ++ t))
  end.

(** [POST /upload-resume/] *)
Definition upload_resume (file : UploadFile) (pdf : pdf_oracle)
    (groq : prompt -> groq_reply) : M upload_response :=
  try_except
    (name <- lift (match filename file with
                   | Some n => Return n
                   | None => Raise AttributeError
                   end) ;;
     when (negb (endswith name (py ".pdf")))
       (raise (HTTPException 400 (Lit "Only PDF files are supported"))) ;;
     let content := file_content file in
     when (match content with [] => true | _ => false end)
       (raise (HTTPException 400 (Lit "Empty file received"))) ;;
     pdf_reader <- try_except (PdfReader pdf content)
       [(Exception, fun _ => raise (HTTPException 400 (Lit "Invalid PDF file")))] ;;
     text <- try_except (lift (extract_pages pdf_reader []))
       [(Exception, fun _ =>
           raise (HTTPException 400 (Lit "Could not extract text from PDF")))] ;;
     when (match strip text with [] => true | _ => false end)
       (raise (HTTPException 400 (Lit "No text content found in PDF"))) ;;
     modify (set_resume_text text) ;;
     modify (set_conversation_history []) ;;
     modify (set_questions []) ;;
     modify (set_answers []) ;;
     modify (set_current_question 0) ;;
     try_except
       (completion <- groq_create groq (FirstQuestionPrompt text) ;;
        try_except
          (response_content <- lift (content_strip completion) ;;
           first_question <- lift (extract_question_from_response response_content) ;;
           first_question <- lift (ensure_question_mark first_question) ;;
           questions_append first_question ;;
           conversation_history_append assistant first_question ;;
           ret {| upload_message := "Resume processed successfully";
                  upload_question := first_question |})
          [(Exception, fun e =>
              raise (HTTPException 500 (Fmt "Error processing question: " e)))])
       [(Exception, fun e =>
           raise (HTTPException 500 (Fmt "Error calling Groq API: " e)))])
    [(is_HTTPException, fun he => raise he);
     (Exception, fun e => raise (HTTPException 500 (Fmt "Unexpected error: " e)))].

(** The two answers of [GET /next-question/].  [audio] holds the bytes of
    the synthesized speech, which the handler sends base64-encoded. *)
Inductive next_response :=
| Completed
| Question (question : str) (audio : list N) (question_number : Z)
           (total_questions : Z).

(** [GET /next-question/] *)
Definition get_next_question (tts : tts_oracle) : M next_response :=
  try_except
    (s <- get ;;
     when (match questions s with [] => true | _ => false end)
       (raise (HTTPException 400
          (Lit "No questions available. Please upload a resume first."))) ;;
     s <- get ;;
     if (current_question s >=? 3)%Z then ret Completed
     else
       question <- lift (list_index (questions s) (current_question s)) ;;
       try_except
         (audio <- gTTS tts question ;;
          s <- get ;;
          ret (Question question audio (current_question s + 1) 3))
         [(Exception, fun _ =>
             raise (HTTPException 500 (Lit "Error generating audio for question")))])
    [(Exception, fun e => raise (HTTPException 500 (StrOf e)))].

(** The comprehension joined into [conversation_text]: one entry per
    recorded answer, reading [questions[i]] and then [answers[i]]. *)
Fixpoint conversation_entries (qs ans : list str) (idx : list nat) : Result (list str) :=
  match idx with
  | [] => Return []
  | i :: rest =>
      bindR (list_index qs (Z.of_nat i)) (fun q =>
      bindR (list_index ans (Z.of_nat i)) (fun a =>
      bindR (conversation_entries qs ans rest) (fun tl =>
      Return ((py "Q: " ++ q ++ [NEWLINE] ++ py "A: " ++ a) :: tl))))
  end.

(** [range(n)] *)
Definition range (n : nat) : list nat := seq 0 n.

(** The body of [transcribe_audio] once the transcript is known: record
    the answer, generate the follow-up question unless this was one of
    the last answers, advance the counter. *)
Definition submit_answer (groq : prompt -> groq_reply) (transcript : str) : M unit :=
  answers_append transcript ;;
  conversation_history_append user transcript ;;
  s <- get ;;
  when (current_question s <? 2)%Z
    (try_except
       (s <- get ;;
        entries <- lift (conversation_entries (questions s) (answers s)
                           (range (List.length (answers s)))) ;;
        let conversation_text := join [NEWLINE] entries in
        completion <- groq_create groq
                        (FollowUpPrompt (resume_text s) conversation_text) ;;
        response_content <- lift (content_strip completion) ;;
        next_question <- lift (extract_question_from_response response_content) ;;
        next_question <- lift (ensure_question_mark next_question) ;;
        questions_append next_question ;;
        conversation_history_append assistant next_question)
       [(Exception, fun _ =>
           raise (HTTPException 500 (Lit "Error generating next question")))]) ;;
  modify (fun s => set_current_question (current_question s + 1) s).

(** [POST /transcribe/] *)
Definition transcribe_audio (file : UploadFile) (dg : deepgram_oracle)
    (groq : prompt -> groq_reply) : M str :=
  try_except
    (when (match filename file with None | Some [] => true | _ => false end)
       (raise (HTTPException 400 (Lit "No audio file provided"))) ;;
     when (match file_content file with [] => true | _ => false end)
       (raise (HTTPException 400 (Lit "Empty audio file received"))) ;;
     try_except
       (transcript <- transcription_prerecorded dg file ;;
        submit_answer groq transcript ;;
        ret transcript)
       [(Exception, fun _ =>
           raise (HTTPException 500 (Lit "Error transcribing audio")))])
    [(Exception, fun e => raise (HTTPException 500 (StrOf e)))].

(** The loop that builds [conversation] in [generate_feedback]. *)
Fixpoint conversation_lines (qs ans : list str) (idx : list nat) : Result (list str) :=
  match idx with
  | [] => Return []
  | i :: rest =>
      bindR (list_index qs (Z.of_nat i)) (fun q =>
      bindR (list_index ans (Z.of_nat i)) (fun a =>
      bindR (conversation_lines qs ans rest) (fun tl =>
      Return ((py "Q: " ++ q) :: (py "A: " ++ a) :: tl))))
  end.

Definition required_keys : list str :=
  [py "score"; py "technical_feedback"; py "communication_feedback";
   py "improvements"].

(** [all(key in feedback for key in keys)] *)
Fixpoint all_in (keys : list str) (feedback : pyval) : Result bool :=
  match keys with
  | [] => Return true
  | key :: rest =>
      bindR (py_in key feedback) (fun b =>
      if b then all_in rest feedback else Return false)
  end.

(** Feedback extraction: from the stripped model text to the feedback
    object, as in the inner [try] body of [generate_feedback]. *)
Definition parse_feedback (response_content : str) : Result pyval :=
  let start_idx := find response_content LBRACE in
  let end_idx := rfind response_content RBRACE in
  bindR
    (if negb (start_idx =? -1)%Z && negb (end_idx =? -1)%Z then
       let json_str := slice response_content start_idx (end_idx + 1) in
       Json.loads json_str
     else Raise (ValueError "Could not find JSON object in response"))
    (fun feedback =>
       bindR (all_in required_keys feedback) (fun ok =>
       if negb ok then Raise (ValueError "Missing required keys in feedback response")
       else Return feedback)).

(** The body of the outermost [try] of [generate_feedback]. *)
Definition generate_feedback_body (groq : prompt -> groq_reply) : M pyval :=
  s <- get ;;
  when (Nat.eqb (List.length (answers s)) 0)
    (raise (HTTPException 400 (Lit "No interview answers to evaluate"))) ;;
  s <- get ;;
  conversation <- lift (conversation_lines (questions s) (answers s)
                          (range (List.length (answers s)))) ;;
  try_except
    (completion <- groq_create groq
                     (FeedbackPrompt (resume_text s) (join [NEWLINE] conversation)) ;;
     try_except
       (response_content <- lift (content_strip completion) ;;
        feedback <- lift (parse_feedback response_content) ;;
        ret feedback)
       [(is_JSONDecodeError, fun e =>
           raise (HTTPException 500 (Fmt "Error parsing feedback: " e)));
        (is_ValueError, fun e =>
           raise (HTTPException 500 (Fmt "Invalid feedback format: " e)))])
    [(Exception, fun e =>
        raise (HTTPException 500 (Fmt "Error generating feedback: " e)))].

(** [GET /generate-feedback/] *)
Definition generate_feedback (groq : prompt -> groq_reply) : M pyval :=
  try_except (generate_feedback_body groq)
    [(Exception, fun e => raise (HTTPException 500 (StrOf e)))].

(** ** Sequences of requests *)

Inductive request :=
| UploadResume (file : UploadFile) (pdf : pdf_oracle) (groq : prompt -> groq_reply)
| NextQuestion (tts : tts_oracle)
| Transcribe (file : UploadFile) (dg : deepgram_oracle) (groq : prompt -> groq_reply)
| GenerateFeedback (groq : prompt -> groq_reply).

(** The session after a request has been served. *)
Definition serve (r : request) (s : InterviewState) : InterviewState :=
  match r with
  | UploadResume file pdf groq => session_of (upload_resume file pdf groq s)
  | NextQuestion tts => session_of (get_next_question tts s)
  | Transcribe file dg groq => session_of (transcribe_audio file dg groq s)
  | GenerateFeedback groq => session_of (generate_feedback groq s)
  end.

Definition serve_all (rs : list request) (s : InterviewState) : InterviewState :=
  fold_left (fun s r => serve r s) rs s.

(** The sessions the process can be in: the initial one after any
    sequence of requests with any behaviour of the external services. *)
Definition reachable (s : InterviewState) : Prop :=
  exists rs, s = serve_all rs InterviewState_init.

(** The session right after the reset of [upload_resume], and once the
    first question has been stored. *)
Definition reset_session (text : str) : InterviewState :=
  {| questions := []; answers := []; current_question := 0;
     resume_text := text; conversation_history := [] |}.

Definition started_session (text first_question : str) : InterviewState :=
  {| questions := [first_question]; answers := []; current_question := 0;
     resume_text := text;
     conversation_history := [(assistant, first_question)] |}.

(** A sequence of requests in which no answer is submitted once the
    interview is completed, starting from session [s]. *)
Fixpoint no_answer_after_completion (rs : list request) (s : InterviewState) : Prop :=
  match rs with
  | [] => True
  | r :: rest =>
      match r with
      | Transcribe _ _ _ => (current_question s < TOTAL_QUESTIONS)%Z
      | _ => True
      end /\ no_answer_after_completion rest (serve r s)
  end.

(** ** The steps of question extraction, as the specification words them *)

(** Step 1 applies: the text is a JSON object with a [question] field. *)
Definition json_question (text : str) (v : pyval) : Prop :=
  exists d, Json.loads text = Return (PDict d) /\ dict_get d QUESTION_KEY = Some v.

(** The exception of [json.loads] on the text, if there is one, is the
    one that line 69 catches. *)
Definition loads_caught (text : str) : Prop :=
  forall e, Json.loads text = Raise e -> is_JSONDecodeError e = true.

(** The text starts the way a JSON value does: with a double quote, an
    opening brace or bracket, a minus sign, a digit or one of the
    constants.  On any other text that does not start with white space
    the decoder stops at the first character. *)
Definition opens_json_value (text : str) : bool :=
  match text with
  | [] => false
  | x :: _ =>
      (x =? DQ)%N || (x =? LBRACE)%N || (x =? ch "[")%N || (x =? ch "-")%N
      || Json.is_digit x
      || startswith text (py "null") || startswith text (py "true")
      || startswith text (py "false") || startswith text (py "NaN")
      || startswith text (py "Infinity")
  end.

(** [q] is a quoted substring ending in a question mark, its opening
    quote at offset [i]: between two double quotes, free of double
    quotes, with at least one character before its final question mark. *)
Definition quoted_question_at (text : str) (i : nat) (q : str) : Prop :=
  exists pre c post,
    text = pre ++ [DQ] ++ q ++ [DQ] ++ post /\ List.length pre = i /\
    q = c ++ [QMARK] /\ c <> [] /\ ~ In DQ c.

Definition first_quoted_question (text q : str) : Prop :=
  exists i, quoted_question_at text i q /\
            forall j q', quoted_question_at text j q' -> i <= j.

(** [q] is a run of characters other than dot, exclamation mark and
    question mark, not empty, followed by a question mark that ends [q],
    starting at offset [i]. *)
Definition sentence_question_at (text : str) (i : nat) (q : str) : Prop :=
  exists pre c post,
    text = pre ++ q ++ post /\ List.length pre = i /\
    q = c ++ [QMARK] /\ c <> [] /\
    (forall x, In x c -> x <> DOT /\ x <> BANG /\ x <> QMARK).

Definition first_sentence_question (text q : str) : Prop :=
  exists i, sentence_question_at text i q /\
            forall j q', sentence_question_at text j q' -> i <= j.

(** Extraction followed by the callers' suffix step. *)
Definition extracted_question (response_text : str) : Result str :=
  bindR (extract_question_from_response response_text) ensure_question_mark.

(** ** Sample requests *)

Module Sample.

Definition resume_pdf : UploadFile :=
  {| filename := Some (py "resume.pdf");
     content_type := Some (py "application/pdf");
     file_content := [37; 80; 68; 70]%N |}.

Definition answer_wav : UploadFile :=
  {| filename := Some (py "audio.wav");
     content_type := Some (py "audio/wav");
     file_content := [82; 73; 70; 70]%N |}.

Definition one_page : pdf_oracle := fun _ => Some [Some (py "Python developer")].

Definition groq_says (content : str) : prompt -> groq_reply :=
  fun _ => GroqContent content.

Definition groq_down : prompt -> groq_reply := fun _ => GroqRaises.

Definition hears (transcript : str) : deepgram_oracle := fun _ _ => Some transcript.

Definition speaks : tts_oracle := fun _ => Some [73; 68; 51]%N.

Definition upload : request :=
  UploadResume resume_pdf one_page (groq_says (py "What is a mutex?")).

Definition answer : request :=
  Transcribe answer_wav (hears (py "It is a lock.")) (groq_says (py "Why use one?")).

Definition answer_groq_down : request :=
  Transcribe answer_wav (hears (py "It is a lock.")) groq_down.

(** The session after the upload. *)
Definition started : InterviewState :=
  started_session (py "Python developer") (py "What is a mutex?").

(** The model text of the feedback example, and the object it embeds. *)
Definition feedback_text : str :=
  py "Sure! {" ++ quoted "score" ++ py ": 72, " ++
  quoted "technical_feedback" ++ py ": " ++ quoted "ok" ++ py ", " ++
  quoted "communication_feedback" ++ py ": " ++ quoted "fine" ++ py ", " ++
  quoted "improvements" ++ py ": " ++ quoted "more depth" ++ py "} Thanks.".

Definition feedback_object : pyval :=
  PDict [(py "score", PInt 72);
         (py "technical_feedback", PStr (py "ok"));
         (py "communication_feedback", PStr (py "fine"));
         (py "improvements", PStr (py "more depth"))].

(** A feedback whose score is out of range. *)
Definition feedback_text_150 : str :=
  py "{" ++ quoted "score" ++ py ": 150, " ++
  quoted "technical_feedback" ++ py ": " ++ quoted "ok" ++ py ", " ++
  quoted "communication_feedback" ++ py ": " ++ quoted "fine" ++ py ", " ++
  quoted "improvements" ++ py ": " ++ quoted "none" ++ py "}".

(** Model texts for question extraction. *)
Definition json_mutex : str :=
  py "{" ++ quoted "question" ++ py ": " ++ quoted "What is a mutex?" ++ py "}".

Definition prose_quoted : str :=
  py "Here is a question: " ++ quoted "Explain your caching design?".

Definition plain_text : str := py "Tell me about your last project".

Definition json_question_5 : str := py "{" ++ quoted "question" ++ py ": 5}".

Definition json_question_null : str := py "{" ++ quoted "question" ++ py ": null}".

End Sample.


(** The invariant of the session, kept by every request. *)
Definition session_inv (s : InterviewState) : Prop :=
  (0 <= current_question s /\
   current_question s <= Z.of_nat (List.length (answers s)) /\
   (questions s = [] -> current_question s = 0) /\
   (questions s <> [] ->
    Z.of_nat (List.length (questions s)) = Z.min (current_question s + 1) 3))%Z.

(** ** Further notions used by the properties of the handlers *)

Definition is_UploadResume (r : request) : bool :=
  match r with
  | UploadResume _ _ _ => true
  | _ => false
  end.

Definition role_eqb (a b : role) : bool :=
  match a, b with
  | assistant, assistant | user, user => true
  | _, _ => false
  end.

(** The contents of the turns of a role, in order. *)
Definition turns_of (r : role) (history : list (role * str)) : list str :=
  map snd (filter (fun turn => role_eqb (fst turn) r) history).

(** The status of an [HTTPException]. *)
Definition status_of (e : exn) : option Z :=
  match e with
  | HTTPException status _ => Some status
  | _ => None
  end.

(** Question [i] paired with answer [i], as the two prompts lay them
    out: two lines per pair for the evaluation, one two-line entry per
    pair for the follow-up question. *)
Definition qa_lines (qs ans : list str) : list str :=
  flat_map (fun qa => [py "Q: " ++ fst qa; py "A: " ++ snd qa]) (combine qs ans).

Definition qa_entries (qs ans : list str) : list str :=
  map (fun qa => py "Q: " ++ fst qa ++ [NEWLINE] ++ py "A: " ++ snd qa)
      (combine qs ans).

(** What every request keeps true of the session: the history holds the
    questions as the assistant's turns and the answers as the user's
    turns, and every question ends with a question mark. *)
Definition history_inv (s : InterviewState) : Prop :=
  turns_of assistant (conversation_history s) = questions s /\
  turns_of user (conversation_history s) = answers s /\
  Forall (fun q => endswith q [QMARK] = true) (questions s).

Definition is_DeepgramCall (c : call) : bool :=
  match c with
  | DeepgramCall => true
  | _ => false
  end.

(** The session once a transcript has been recorded. *)
Definition record_answer (t : str) (s : InterviewState) : InterviewState :=
  {| questions := questions s; answers := answers s ++ [t];
     current_question := current_question s;
     resume_text := resume_text s;
     conversation_history := conversation_history s ++ [(user, t)] |}.

(** The session once the follow-up question has been stored as well. *)
Definition record_question (q : str) (s : InterviewState) : InterviewState :=
  {| questions := questions s ++ [q]; answers := answers s;
     current_question := current_question s;
     resume_text := resume_text s;
     conversation_history := conversation_history s ++ [(assistant, q)] |}.

(** [q] is a contiguous part of [text]. *)
Definition excerpt (q text : str) : Prop :=
  exists pre post, text = pre ++ q ++ post.

(** ** Further sample requests *)

Module Scenario.

Definition notes_txt : UploadFile :=
  {| filename := Some (py "notes.txt");
     content_type := Some (py "text/plain");
     file_content := [110; 111]%N |}.

(** The session after an upload and one answer, with the language model
    answering and with the language model failing. *)
Definition one_answer : InterviewState :=
  serve_all [Sample.upload; Sample.answer] InterviewState_init.

Definition one_failed_answer : InterviewState :=
  serve_all [Sample.upload; Sample.answer_groq_down] InterviewState_init.

Definition two_answers : InterviewState :=
  serve_all [Sample.upload; Sample.answer; Sample.answer] InterviewState_init.

Definition two_failed_answers : InterviewState :=
  serve_all [Sample.upload; Sample.answer_groq_down; Sample.answer_groq_down]
    InterviewState_init.

End Scenario.

(** ** The client ([app.py]) *)

Module Client.

(** [st.session_state]: the three keys of lines 32-37. *)
Record session_state := {
  interview_started : bool;
  current_question : Z;
  interview_completed : bool
}.

Definition session_state_init : session_state :=
  {| interview_started := false; current_question := 0;
     interview_completed := false |}.

(** A file chosen in [st.file_uploader]: its name and its bytes. *)
Record UploadedFile := {
  name : str;
  getvalue : list N
}.

(** [os.path.basename] (POSIX): what follows the last slash. *)
Fixpoint upto_slash (s : str) : str :=
  match s with
  | [] => []
  | c :: r => if (c =? ch "/")%N then [] else c :: upto_slash r
  end.

Definition basename (p : str) : str := rev (upto_slash (rev p)).

(** [requests.utils.guess_filename] on an object whose [name] is a
    [str]: the base name, unless the name is empty, starts with [<] or
    ends with [>]. *)
Definition guess_filename (name : str) : option str :=
  match name, rev name with
  | first :: _, last :: _ =>
      if negb (first =? ch "<")%N && negb (last =? ch ">")%N
      then Some (basename name) else None
  | _, _ => None
  end.

(** [files = {"file": uploaded_file}]: [requests] sends the file under
    [guess_filename(v) or k], the key being [file], with no content type
    of its own.  (How the multipart header escapes a name is not
    modelled.) *)
Definition as_upload (f : UploadedFile) : UploadFile :=
  {| filename := Some (match guess_filename (name f) with
                       | Some (c :: r) => c :: r
                       | _ => py "file"
                       end);
     content_type := None; file_content := getvalue f |}.

(** [("audio.wav", audio_bytes, "audio/wav")] *)
Definition audio_upload (audio_bytes : list N) : UploadFile :=
  {| filename := Some (py "audio.wav"); content_type := Some (py "audio/wav");
     file_content := audio_bytes |}.

Inductive endpoint := upload_resume_ep | next_question_ep | transcribe_ep
                    | generate_feedback_ep.

(** What one run of the script meets: whether the server answers
    ([check_server_connection], and each request, which otherwise raises
    a [RequestException]), the widgets' values, and the behaviour of the
    services behind the server during the run. *)
Record run := {
  check_server_connection : bool;
  answered : endpoint -> bool;
  uploaded_file : option UploadedFile;
  start_interview : bool;           (* st.button("Start Interview") *)
  audio_recorder : option (list N);
  submit_answer_button : bool;      (* st.button("Submit Answer") *)
  generate_feedback_button : bool;  (* st.button("Generate Feedback") *)
  start_new_interview : bool;       (* st.button("Start New Interview") *)
  pdf : pdf_oracle;
  groq : prompt -> groq_reply;
  tts : tts_oracle;
  dg : deepgram_oracle
}.

(** One run of [main]: the client's state and the server's session
    after it, and the requests the server has served, in order.  What
    the page displays is not part of the model. *)
Definition main (i : run) (st : session_state) (b : InterviewState)
  : session_state * InterviewState * list request :=
  if negb (check_server_connection i) then (st, b, [])        (* st.stop() *)
  else if negb (interview_started st) then
    match uploaded_file i with
    | None => (st, b, [])
    | Some f =>
        if negb (endswith (name f) (py ".pdf")) then (st, b, [])
        else if negb (start_interview i) then (st, b, [])
        else if negb (answered i upload_resume_ep) then (st, b, [])
        else
          let o := upload_resume (as_upload f) (pdf i) (groq i) b in
          let st' :=
            match result_of o with
            | Return _ =>                      (* status 200 *)
                {| interview_started := true;
                   current_question := current_question st;
                   interview_completed := interview_completed st |}
            | Raise _ => st
            end in
          (st', session_of o, [UploadResume (as_upload f) (pdf i) (groq i)])
    end
  else if negb (interview_completed st) then
    if negb (answered i next_question_ep) then (st, b, [])
    else
      let o := get_next_question (tts i) b in
      let b1 := session_of o in
      match result_of o with
      | Raise _ => (st, b1, [NextQuestion (tts i)])
      | Return Completed =>
          ({| interview_started := interview_started st;
              current_question := current_question st;
              interview_completed := true |}, b1, [NextQuestion (tts i)])
      | Return (Question _ _ _ _) =>
          match audio_recorder i with
          | Some (x :: audio_bytes) =>
              if submit_answer_button i && answered i transcribe_ep then
                let file := audio_upload (x :: audio_bytes) in
                (st, session_of (transcribe_audio file (dg i) (groq i) b1),
                 [NextQuestion (tts i); Transcribe file (dg i) (groq i)])
              else (st, b1, [NextQuestion (tts i)])
          | _ => (st, b1, [NextQuestion (tts i)])
          end
      end
  else
    let served :=
      if generate_feedback_button i && answered i generate_feedback_ep
      then [GenerateFeedback (groq i)] else [] in
    let st' :=
      if start_new_interview i
      then {| interview_started := false; current_question := 0;
              interview_completed := false |}
      else st in
    (st', serve_all served b, served).

(** The runs of one browser session, one after the other. *)
Fixpoint runs (l : list run) (st : session_state) (b : InterviewState)
  : session_state * InterviewState :=
  match l with
  | [] => (st, b)
  | i :: rest =>
      match main i st b with
      | (st', b', _) => runs rest st' b'
      end
  end.

(** The requests served during the runs. *)
Fixpoint requests (l : list run) (st : session_state) (b : InterviewState)
  : list request :=
  match l with
  | [] => []
  | i :: rest =>
      match main i st b with
      | (st', b', served) => served ++ requests rest st' b'
      end
  end.

(** What the requests of the client are made of: a resume is a chosen
    file whose name ends in [.pdf], as [requests] sends it; an answer is
    the file [audio.wav], not empty. *)
Definition well_formed (r : request) : Prop :=
  match r with
  | UploadResume f' _ _ =>
      exists f, f' = as_upload f /\ endswith (name f) (py ".pdf") = true
  | Transcribe f _ _ =>
      filename f = Some (py "audio.wav") /\ file_content f <> []
  | _ => True
  end.

End Client.

(** The interview is on track: one answer per question asked so far and
    the question in progress stored. *)
Definition on_track (s : InterviewState) : Prop :=
  (questions s <> [] /\
   0 <= current_question s <= 3 /\
   Z.of_nat (List.length (answers s)) = current_question s /\
   Z.of_nat (List.length (questions s)) = Z.min (current_question s + 1) 3)%Z.

(** The interview cannot go on: no question waits for an answer. *)
Definition stuck (s : InterviewState) : Prop :=
  (0 <= current_question s < 2)%Z /\
  (List.length (questions s) <= List.length (answers s))%nat.

(** What the runs of the client keep true: the session on the server is
    on track or stuck, and the client shows the interview as completed
    only when the server's counter is 3. *)
Definition client_inv (st : Client.session_state) (b : InterviewState) : Prop :=
  (on_track b \/ stuck b) /\
  (Client.interview_completed st = true ->
   Client.interview_started st = true /\ current_question b = 3%Z).

(** ** Sample runs of the client *)

Module Visit.

Definition resume : Client.UploadedFile :=
  {| Client.name := py "resume.pdf";
     Client.getvalue := [37; 80; 68; 70]%N |}.

(** A run in which nothing is clicked. *)
Definition idle : Client.run :=
  {| Client.check_server_connection := true;
     Client.answered := fun _ => true;
     Client.uploaded_file := None;
     Client.start_interview := false;
     Client.audio_recorder := None;
     Client.submit_answer_button := false;
     Client.generate_feedback_button := false;
     Client.start_new_interview := false;
     Client.pdf := Sample.one_page;
     Client.groq := Sample.groq_says (py "Why use one?");
     Client.tts := Sample.speaks;
     Client.dg := Sample.hears (py "It is a lock.") |}.

(** The resume is chosen and the interview started. *)
Definition start : Client.run :=
  {| Client.check_server_connection := true;
     Client.answered := fun _ => true;
     Client.uploaded_file := Some resume;
     Client.start_interview := true;
     Client.audio_recorder := None;
     Client.submit_answer_button := false;
     Client.generate_feedback_button := false;
     Client.start_new_interview := false;
     Client.pdf := Sample.one_page;
     Client.groq := Sample.groq_says (py "What is a mutex?");
     Client.tts := Sample.speaks;
     Client.dg := Sample.hears (py "It is a lock.") |}.

(** The same with a resume whose name starts with [<]. *)
Definition bracket_resume : Client.UploadedFile :=
  {| Client.name := py "<cv.pdf";
     Client.getvalue := [37; 80; 68; 70]%N |}.

Definition start_bracket : Client.run :=
  {| Client.check_server_connection := true;
     Client.answered := fun _ => true;
     Client.uploaded_file := Some bracket_resume;
     Client.start_interview := true;
     Client.audio_recorder := None;
     Client.submit_answer_button := false;
     Client.generate_feedback_button := false;
     Client.start_new_interview := false;
     Client.pdf := Sample.one_page;
     Client.groq := Sample.groq_says (py "What is a mutex?");
     Client.tts := Sample.speaks;
     Client.dg := Sample.hears (py "It is a lock.") |}.

(** An answer is recorded and submitted, with the language model
    answering or failing. *)
Definition answer (groq : prompt -> groq_reply) : Client.run :=
  {| Client.check_server_connection := true;
     Client.answered := fun _ => true;
     Client.uploaded_file := None;
     Client.start_interview := false;
     Client.audio_recorder := Some [82; 73; 70; 70]%N;
     Client.submit_answer_button := true;
     Client.generate_feedback_button := false;
     Client.start_new_interview := false;
     Client.pdf := Sample.one_page;
     Client.groq := groq;
     Client.tts := Sample.speaks;
     Client.dg := Sample.hears (py "It is a lock.") |}.

(** The client once the interview has started. *)
Definition interviewing : Client.session_state :=
  {| Client.interview_started := true; Client.current_question := 0;
     Client.interview_completed := false |}.

End Visit.

(** The server turns the request down because of the file's name or of
    its being empty (lines 90-91 and 210-215). *)
Definition file_refused (r : request) (s : InterviewState) : Prop :=
  match r with
  | UploadResume f pdf groq =>
      result_of (upload_resume f pdf groq s)
      = Raise (HTTPException 400 (Lit "Only PDF files are supported"))
  | Transcribe f dg groq =>
      result_of (transcribe_audio f dg groq s)
      = Raise (HTTPException 500
                 (StrOf (HTTPException 400 (Lit "No audio file provided"))))
      \/ result_of (transcribe_audio f dg groq s)
         = Raise (HTTPException 500
                    (StrOf (HTTPException 400 (Lit "Empty audio file received"))))
  | _ => False
  end.

(* ================================================================== *)
(** * Part II: properties *)
(* ================================================================== *)

(** ** Running handler computations *)

Ltac unfold_handler :=
  unfold result_of, session_of, calls_of, try_except, when, bind, ret, raise,
    lift, get, modify, emit, questions_append, answers_append,
    conversation_history_append, groq_create, gTTS, PdfReader,
    transcription_prerecorded in *.

(** Case analysis on the innermost scrutinee the goal is stuck on. *)
Ltac case_scrutinee :=
  match goal with
  | |- context [match ?x with _ => _ end] =>
      lazymatch x with
      | context [match _ with _ => _ end] => fail
      | _ => destruct x eqn:?
      end
  end.

Ltac run_handler := unfold_handler; repeat (cbn; try case_scrutinee).

(** ** [get_next_question] *)

Lemma get_next_question_session tts s :
  session_of (get_next_question tts s) = s.
Proof. unfold get_next_question. run_handler; reflexivity. Qed.

(** C10.  Serving [GET /next-question/] leaves the session as it was,
    whatever it answers (a question, the completion signal or an error):
    [resume_text], [questions], [answers], [current_question] and
    [conversation_history] are all unchanged. *)
Theorem get_next_question_frame :
  forall (tts : tts_oracle) (s : InterviewState),
    session_of (get_next_question tts s) = s.
Proof.
  intros tts s. unfold get_next_question.
  run_handler; reflexivity.
Qed.

(** ** Outcomes of the handlers *)

Local Open Scope Z_scope.

Lemma list_index_Return {A} (l : list A) (i : nat) (x : A) :
  list_index l (Z.of_nat i) = Return x -> (i < List.length l)%nat.
Proof.
  unfold list_index. destruct (Z.of_nat i <? 0) eqn:E; [lia|].
  rewrite E. rewrite Nat2Z.id.
  destruct (nth_error l i) eqn:N; [|discriminate].
  intros _. apply nth_error_Some. congruence.
Qed.

Lemma conversation_entries_Return qs ans idx l :
  conversation_entries qs ans idx = Return l ->
  Forall (fun i => (i < List.length qs)%nat) idx.
Proof.
  revert l. induction idx as [|i idx IH]; intros l H; [constructor|].
  cbn in H. unfold bindR in H.
  destruct (list_index qs (Z.of_nat i)) eqn:Q; [|discriminate].
  destruct (list_index ans (Z.of_nat i)); [|discriminate].
  destruct (conversation_entries qs ans idx) eqn:R; [|discriminate].
  constructor; [eapply list_index_Return; eauto | eapply IH; eauto].
Qed.

Lemma entries_after_append qs ans t l :
  conversation_entries qs (ans ++ [t]) (range (List.length (ans ++ [t]))) = Return l ->
  (List.length ans < List.length qs)%nat.
Proof.
  intros H. apply conversation_entries_Return in H.
  rewrite Forall_forall in H. apply H. unfold range.
  apply in_seq. rewrite length_app. cbn. lia.
Qed.

Lemma submit_answer_cases groq t s :
  let o := submit_answer groq t s in
  answers (session_of o) = answers s ++ [t] /\
  resume_text (session_of o) = resume_text s /\
  ((result_of o = Return tt /\
    current_question (session_of o) = current_question s + 1 /\
    ((current_question s < 2 /\
      (List.length (answers s) < List.length (questions s))%nat /\
      exists q, questions (session_of o) = questions s ++ [q])
     \/ (2 <= current_question s /\
         questions (session_of o) = questions s /\ calls_of o = [])))
   \/ (exists e, result_of o = Raise e /\ current_question s < 2 /\
         current_question (session_of o) = current_question s /\
         questions (session_of o) = questions s)).
Proof.
  unfold submit_answer. run_handler.
  all: repeat match goal with
         | H : (_ <? _) = true |- _ => apply Z.ltb_lt in H
         | H : (_ <? _) = false |- _ => apply Z.ltb_ge in H
         end.
  all: split; [reflexivity|]; split; [reflexivity|].
  all: first
    [ solve [right; eexists; repeat split; try reflexivity; lia]
    | solve [left; split; [reflexivity|]; split; [reflexivity|];
             right; repeat split; try reflexivity; lia]
    | solve [left; split; [reflexivity|]; split; [reflexivity|];
             left; split; [lia|]; split;
             [eauto using entries_after_append | eexists; reflexivity]] ].
Qed.

Local Arguments submit_answer : simpl never.

(** [transcribe_audio] either leaves the session alone and fails, or runs
    [submit_answer] on the transcript and succeeds exactly when it does. *)
Lemma transcribe_audio_cases file dg groq s :
  let o := transcribe_audio file dg groq s in
  (session_of o = s /\ exists e, result_of o = Raise e /\
     forall t, result_of o <> Return t)
  \/ exists t,
       let o' := submit_answer groq t s in
       dg (file_content file) (content_type file) = Some t /\
       session_of o = session_of o' /\
       calls_of o = DeepgramCall :: calls_of o' /\
       match result_of o' with
       | Return _ => result_of o = Return t
       | Raise _ => exists e, result_of o = Raise e
       end.
Proof.
  unfold transcribe_audio. run_handler.
  all: try solve [left; split; [reflexivity|]; eexists; split; [reflexivity|];
                  intros; discriminate].
  all: right; match goal with H : _ _ (content_type _) = Some ?t |- _ => exists t end.
  all: cbn; rewrite Heqp; cbn; rewrite ?app_nil_r; repeat split; eauto.
Qed.

Lemma endswith_snoc (s : str) (c : char) : endswith (s ++ [c]) [c] = true.
Proof.
  unfold endswith. rewrite rev_app_distr. simpl. rewrite N.eqb_refl. now destruct (rev s).
Qed.

Lemma ensure_question_mark_Return v q :
  ensure_question_mark v = Return q -> endswith q [QMARK] = true.
Proof.
  destruct v; cbn; try discriminate.
  destruct (endswith s [QMARK]) eqn:E; intros H; inversion H; subst; auto.
  apply endswith_snoc.
Qed.

(** The three outcomes of [upload_resume]: rejected before the reset,
    failed after it, or started. *)
Lemma upload_resume_cases file pdf groq s :
  let o := upload_resume file pdf groq s in
  (session_of o = s /\ exists e, result_of o = Raise e)
  \/ (exists text, session_of o = reset_session text /\ exists e, result_of o = Raise e)
  \/ (exists pages text q,
        pdf (file_content file) = Some pages /\
        extract_pages pages [] = Return text /\
        endswith q [QMARK] = true /\
        session_of o = started_session text q /\
        result_of o = Return {| upload_message := "Resume processed successfully";
                                upload_question := q |} /\
        calls_of o = [PdfReaderCall; GroqCall (FirstQuestionPrompt text)]).
Proof.
  unfold upload_resume. run_handler.
  all: try solve [left; split; [reflexivity|]; eexists; reflexivity].
  all: try solve [right; left; eexists; split; [reflexivity|]; eexists; reflexivity].
  right; right. do 3 eexists. repeat split; eauto using ensure_question_mark_Return.
Qed.

Lemma generate_feedback_frame groq s :
  session_of (generate_feedback groq s) = s.
Proof.
  unfold generate_feedback, generate_feedback_body. run_handler; reflexivity.
Qed.

Lemma session_inv_init : session_inv InterviewState_init.
Proof. unfold session_inv; cbn. repeat split; try lia. congruence. Qed.

Lemma session_inv_submit groq t s :
  session_inv s -> session_inv (session_of (submit_answer groq t s)).
Proof.
  intros (H0 & H1 & H2 & H3).
  destruct (submit_answer_cases groq t s) as (Ha & _ & Hc).
  unfold session_inv. rewrite Ha, length_app. cbn [List.length].
  destruct Hc as [(_ & Hq & [(Hlt & Hlen & q & Hqs) | (Hge & Hqs & _)]) | (e & _ & Hlt & Hq & Hqs)].
  - rewrite Hq, Hqs. rewrite length_app. cbn [List.length].
    assert (questions s <> []) by (destruct (questions s); [cbn in Hlen; lia | congruence]).
    specialize (H3 H). repeat split; try lia.
    + intros E. apply app_eq_nil in E. destruct E; discriminate.
  - rewrite Hq, Hqs. repeat split; try lia.
    + intros E. specialize (H2 E). lia.
    + intros E. specialize (H3 E). lia.
  - rewrite Hq, Hqs. repeat split; try lia; auto.
Qed.

Lemma session_inv_serve r s : session_inv s -> session_inv (serve r s).
Proof.
  intros H. destruct r as [file pdf groq | tts | file dg groq | groq]; cbn [serve].
  - destruct (upload_resume_cases file pdf groq s)
      as [(E & _) | [(text & E & _) | (pages & text & q & _ & _ & _ & E & _)]];
      rewrite E; auto; unfold session_inv; cbn; repeat split; try lia; congruence.
  - now rewrite get_next_question_session.
  - destruct (transcribe_audio_cases file dg groq s) as [(E & _) | (t & _ & E & _)];
      rewrite E; auto using session_inv_submit.
  - now rewrite generate_feedback_frame.
Qed.

Lemma session_inv_serve_all rs s : session_inv s -> session_inv (serve_all rs s).
Proof.
  revert s. induction rs as [|r rs IH]; intros s H; cbn; auto.
  apply IH, session_inv_serve, H.
Qed.

Lemma reachable_inv s : reachable s -> session_inv s.
Proof.
  intros [rs ->]. apply session_inv_serve_all, session_inv_init.
Qed.

(** ** Submitting an answer *)

(** C1 (as amended).  For every session and every transcript,
    [submit_answer] appends exactly one entry, the transcript, to
    [answers], whether the follow-up generation succeeds, fails or is not
    attempted: the recorded answer is never rolled back.  It increments
    [current_question] by exactly 1 when it returns normally, and leaves
    it unchanged when the follow-up generation fails.  The handler
    [transcribe_audio] leaves the session as it was when it rejects the
    upload or the transcription fails, and otherwise leaves it as
    [submit_answer] does on the transcript. *)
Theorem submit_answer_records_answer :
  forall (groq : prompt -> groq_reply) (transcript : str) (s : InterviewState),
    let o := submit_answer groq transcript s in
    answers (session_of o) = answers s ++ [transcript] /\
    current_question (session_of o) =
      match result_of o with
      | Return _ => current_question s + 1
      | Raise _ => current_question s
      end /\
    forall (file : UploadFile) (dg : deepgram_oracle),
      session_of (transcribe_audio file dg groq s) = s \/
      exists t, dg (file_content file) (content_type file) = Some t /\
                session_of (transcribe_audio file dg groq s)
                = session_of (submit_answer groq t s).
Proof.
  intros groq t s o. subst o.
  destruct (submit_answer_cases groq t s) as (Ha & _ & Hc). split; [exact Ha|]. split.
  - destruct Hc as [(Hr & Hq & _) | (e & Hr & _ & Hq & _)]; now rewrite Hr, Hq.
  - intros file dg.
    destruct (transcribe_audio_cases file dg groq s) as [(E & _) | (t' & D & E & _)];
      eauto.
Qed.

(** C1, counterexample.  With the language model failing, the answer is
    recorded and [current_question] is not incremented. *)
Lemma submit_answer_failure_keeps_index :
  let o := transcribe_audio Sample.answer_wav (Sample.hears (py "It is a lock."))
             Sample.groq_down Sample.started in
  Sample.started = serve_all [Sample.upload] InterviewState_init /\
  answers (session_of o) = [py "It is a lock."] /\
  current_question (session_of o) = current_question Sample.started /\
  current_question (session_of o) <> current_question Sample.started + 1.
Proof. vm_compute. repeat split; discriminate. Qed.

(** ** The range of [current_question] *)

Lemma serve_current_question r s :
  current_question (serve r s) = current_question s \/
  current_question (serve r s) = 0 \/
  (current_question (serve r s) = current_question s + 1 /\
   exists file dg groq, r = Transcribe file dg groq).
Proof.
  destruct r as [file pdf groq | tts | file dg groq | groq]; cbn [serve].
  - destruct (upload_resume_cases file pdf groq s)
      as [(E & _) | [(text & E & _) | (pages & text & q & _ & _ & _ & E & _)]];
      rewrite E; auto.
  - rewrite get_next_question_session; auto.
  - destruct (transcribe_audio_cases file dg groq s) as [(E & _) | (t & _ & E & _)];
      rewrite E; auto.
    destruct (submit_answer_cases groq t s) as (_ & _ & [(_ & Hq & _) | (e & _ & _ & Hq & _)]);
      rewrite Hq; eauto 8.
  - rewrite generate_feedback_frame; auto.
Qed.

Lemma current_question_bounded rs : forall s,
  0 <= current_question s <= TOTAL_QUESTIONS ->
  no_answer_after_completion rs s ->
  0 <= current_question (serve_all rs s) <= TOTAL_QUESTIONS.
Proof.
  unfold TOTAL_QUESTIONS.
  induction rs as [|r rs IH]; intros s Hs Hg; cbn; auto.
  destruct Hg as [Hr Hg]. apply IH; auto.
  destruct (serve_current_question r s) as [E | [E | (E & file & dg & groq & ->)]];
    rewrite E; try lia.
  unfold TOTAL_QUESTIONS in Hr. lia.
Qed.

(** C2 (as amended).  In every session reached from the initial one by
    a sequence of requests in which no answer is submitted once the
    interview is completed, [current_question] is within
    [0, TOTAL_QUESTIONS]. *)
Theorem current_question_in_range :
  forall rs : list request,
    no_answer_after_completion rs InterviewState_init ->
    0 <= current_question (serve_all rs InterviewState_init) <= TOTAL_QUESTIONS.
Proof.
  intros rs H. apply current_question_bounded; auto. cbn. unfold TOTAL_QUESTIONS. lia.
Qed.

Lemma current_question_in_range_witness :
  no_answer_after_completion
    [Sample.upload; Sample.answer; Sample.answer; Sample.answer] InterviewState_init /\
  0 <= current_question
         (serve_all [Sample.upload; Sample.answer; Sample.answer; Sample.answer]
            InterviewState_init) <= TOTAL_QUESTIONS.
Proof.
  assert (H : no_answer_after_completion
    [Sample.upload; Sample.answer; Sample.answer; Sample.answer] InterviewState_init)
    by (vm_compute; repeat split).
  split; [exact H | exact (@current_question_in_range _ H)].
Defined.

(** C2, counterexample.  An answer submitted after the third one takes
    [current_question] to 4. *)
Lemma answer_after_completion_overflows :
  let s := serve_all [Sample.upload; Sample.answer; Sample.answer; Sample.answer;
                      Sample.answer] InterviewState_init in
  reachable s /\ current_question s = 4 /\
  ~ (0 <= current_question s <= TOTAL_QUESTIONS).
Proof.
  cbv zeta. split; [eexists; reflexivity|].
  vm_compute. split; [reflexivity|]. intros [_ H]. apply H. reflexivity.
Qed.

(** ** Lengths of [questions] and [answers] *)

(** C3 (as amended).  In every reachable session
    [len(questions) <= current_question + 1]; and
    [len(answers) <= len(questions)] holds whenever
    [len(answers) = current_question <= TOTAL_QUESTIONS], that is when no
    answer was submitted with a failing follow-up generation or after
    completion since the session was reset. *)
Theorem questions_answers_lengths :
  forall s : InterviewState,
    reachable s ->
    Z.of_nat (List.length (questions s)) <= current_question s + 1 /\
    (Z.of_nat (List.length (answers s)) = current_question s ->
     current_question s <= TOTAL_QUESTIONS ->
     (List.length (answers s) <= List.length (questions s))%nat).
Proof.
  intros s H. apply reachable_inv in H. destruct H as (H0 & H1 & H2 & H3).
  unfold TOTAL_QUESTIONS.
  destruct (questions s) as [|q qs] eqn:E.
  - specialize (H2 eq_refl). cbn. split; lia.
  - assert (N : q :: qs <> []) by congruence. specialize (H3 N). split; lia.
Qed.

Lemma questions_answers_lengths_witness :
  reachable (serve_all [Sample.upload; Sample.answer] InterviewState_init) /\
  (List.length (answers (serve_all [Sample.upload; Sample.answer] InterviewState_init))
   <= List.length (questions (serve_all [Sample.upload; Sample.answer] InterviewState_init)))%nat.
Proof.
  assert (R : reachable (serve_all [Sample.upload; Sample.answer] InterviewState_init))
    by (eexists; reflexivity).
  split; [exact R|].
  apply (proj2 (@questions_answers_lengths _ R)); vm_compute; [reflexivity | discriminate].
Defined.

(** C3, counterexample.  Two answers submitted while the language model
    fails leave two answers for one question. *)
Lemma answers_outnumber_questions :
  let s := serve_all [Sample.upload; Sample.answer_groq_down; Sample.answer_groq_down]
             InterviewState_init in
  reachable s /\
  List.length (answers s) = 2%nat /\ List.length (questions s) = 1%nat /\
  ~ (List.length (answers s) <= List.length (questions s))%nat.
Proof.
  cbv zeta. split; [eexists; reflexivity|].
  vm_compute. repeat split. intros H. inversion H. inversion H1.
Qed.

Lemma transcribe_audio_Return file dg groq s t s' l :
  transcribe_audio file dg groq s = (Return t, s', l) ->
  exists l', submit_answer groq t s = (Return tt, s', l') /\ l = DeepgramCall :: l'.
Proof.
  intros H.
  destruct (transcribe_audio_cases file dg groq s) as [(_ & e & He & _) | (t0 & _ & Hs & Hl & Hr)].
  - rewrite H in He. discriminate.
  - rewrite H in Hs, Hl, Hr. cbn in Hs, Hl, Hr.
    destruct (submit_answer groq t0 s) as [[r s1] l1] eqn:E. cbn in *.
    destruct r as [[]|e]; [|destruct Hr; discriminate].
    inversion Hr; subst. eauto.
Qed.

Lemma get_next_question_completed tts s :
  questions s <> [] -> 3 <= current_question s ->
  get_next_question tts s = (Return Completed, s, []).
Proof.
  intros Hq Hc. unfold get_next_question. run_handler; try congruence.
  all: try (rewrite Z.geb_leb in Heqb; apply Z.leb_gt in Heqb; lia).
Qed.

Lemma upload_resume_Return file pdf groq s r s' l :
  upload_resume file pdf groq s = (Return r, s', l) ->
  exists pages text,
    pdf (file_content file) = Some pages /\ extract_pages pages [] = Return text /\
    endswith (upload_question r) [QMARK] = true /\
    s' = started_session text (upload_question r).
Proof.
  intros H.
  destruct (upload_resume_cases file pdf groq s)
    as [(_ & e & He) | [(text & _ & e & He) | (pages & text & q & Hp & Ht & Hq & Hs & Hr & _)]];
    rewrite H in *; cbn in *; try discriminate.
  inversion Hr; subst. cbn. eauto 6.
Qed.

(** ** Completion *)

(** C7 (as amended).  Starting from a fresh session (a successful
    upload), after three [transcribe_audio] calls that each return
    normally, [current_question] is 3, the third call has generated no
    question (it made no model call and left [questions] as it was) and
    [get_next_question] returns the completion signal without calling any
    service; and in every reachable session with
    [current_question >= TOTAL_QUESTIONS], [get_next_question] returns
    the completion signal without calling any service. *)
Theorem three_answers_complete :
  forall file pdf groq0 s_prev r0 s0 l0
         f1 d1 g1 t1 s1 l1 f2 d2 g2 t2 s2 l2 f3 d3 g3 t3 s3 l3,
    upload_resume file pdf groq0 s_prev = (Return r0, s0, l0) ->
    transcribe_audio f1 d1 g1 s0 = (Return t1, s1, l1) ->
    transcribe_audio f2 d2 g2 s1 = (Return t2, s2, l2) ->
    transcribe_audio f3 d3 g3 s2 = (Return t3, s3, l3) ->
    current_question s3 = TOTAL_QUESTIONS /\
    questions s3 = questions s2 /\
    existsb is_GroqCall l3 = false /\
    (forall tts, get_next_question tts s3 = (Return Completed, s3, [])) /\
    (forall s tts, reachable s -> TOTAL_QUESTIONS <= current_question s ->
                   get_next_question tts s = (Return Completed, s, [])).
Proof.
  intros file pdf groq0 s_prev r0 s0 l0 f1 d1 g1 t1 s1 l1 f2 d2 g2 t2 s2 l2
         f3 d3 g3 t3 s3 l3 H0 H1 H2 H3.
  apply upload_resume_Return in H0. destruct H0 as (pages & text & _ & _ & _ & ->).
  apply transcribe_audio_Return in H1, H2, H3.
  destruct H1 as (l1' & H1 & _), H2 as (l2' & H2 & _), H3 as (l3' & H3 & ->).
  pose proof (submit_answer_cases g1 t1 (started_session text (upload_question r0))) as C1.
  rewrite H1 in C1. cbn in C1.
  destruct C1 as (_ & _ & [(_ & Hc1 & [(_ & _ & q1 & Hq1) | (? & _)]) | (e & ? & _)]);
    try lia; try discriminate.
  pose proof (submit_answer_cases g2 t2 s1) as C2. rewrite H2 in C2. cbn in C2.
  destruct C2 as (_ & _ & [(_ & Hc2 & [(_ & _ & q2 & Hq2) | (? & _)]) | (e & ? & _)]);
    try lia; try discriminate.
  pose proof (submit_answer_cases g3 t3 s2) as C3. rewrite H3 in C3. cbn in C3.
  destruct C3 as (_ & _ & [(_ & Hc3 & [(? & _) | (_ & Hq3 & Hl3)]) | (e & ? & _)]);
    try lia; try discriminate.
  unfold TOTAL_QUESTIONS. subst l3'.
  split; [lia|]. split; [exact Hq3|]. split; [reflexivity|]. split.
  - intros tts. apply get_next_question_completed; [|lia].
    rewrite Hq3, Hq2. intros E. apply app_eq_nil in E. destruct E; discriminate.
  - intros s tts R Hs. apply get_next_question_completed; [|exact Hs].
    apply reachable_inv in R. destruct R as (_ & _ & R & _).
    intros E. specialize (R E). lia.
Qed.

Lemma three_answers_complete_witness :
  current_question
    (serve_all [Sample.upload; Sample.answer; Sample.answer; Sample.answer]
       InterviewState_init) = TOTAL_QUESTIONS.
Proof.
  refine (proj1 (@three_answers_complete
    Sample.resume_pdf Sample.one_page (Sample.groq_says (py "What is a mutex?"))
    InterviewState_init _ _ _
    Sample.answer_wav (Sample.hears (py "It is a lock.")) (Sample.groq_says (py "Why use one?")) _ _ _
    Sample.answer_wav (Sample.hears (py "It is a lock.")) (Sample.groq_says (py "Why use one?")) _ _ _
    Sample.answer_wav (Sample.hears (py "It is a lock.")) (Sample.groq_says (py "Why use one?")) _ _ _
    _ _ _ _)); vm_compute; reflexivity.
Defined.

(** C7, counterexample.  Three calls whose follow-up generation fails
    leave the interview at its first question. *)
Lemma failed_answers_do_not_complete :
  let s := serve_all [Sample.upload; Sample.answer_groq_down; Sample.answer_groq_down;
                      Sample.answer_groq_down] InterviewState_init in
  current_question s = 0 /\
  result_of (get_next_question Sample.speaks s)
    = Return (Question (py "What is a mutex?") [73; 68; 51]%N 1 3) /\
  result_of (get_next_question Sample.speaks s) <> Return Completed.
Proof. vm_compute. repeat split; discriminate. Qed.

(** ** Starting a new session *)

(** C8.  A successful upload leaves the session holding only the new
    resume text, the new first question (in [questions] and in
    [conversation_history]), no answer and [current_question = 0]; the
    outcome, the session and the calls are the same from every prior
    session, so nothing of the previous session is observable. *)
Theorem upload_resume_resets :
  forall file pdf groq s r s' l,
    upload_resume file pdf groq s = (Return r, s', l) ->
    (exists text, s' = started_session text (upload_question r)) /\
    (forall s0, upload_resume file pdf groq s0 = (Return r, s', l)).
Proof.
  intros file pdf groq s r s' l H. split.
  - apply upload_resume_Return in H. destruct H as (_ & text & _ & _ & _ & ->). eauto.
  - intros s0. revert H. unfold upload_resume. run_handler; intros H; try discriminate; exact H.
Qed.

Lemma upload_resume_resets_witness :
  upload_resume Sample.resume_pdf Sample.one_page (Sample.groq_says (py "What is a mutex?"))
    (serve_all [Sample.upload; Sample.answer; Sample.answer] InterviewState_init)
  = upload_resume Sample.resume_pdf Sample.one_page (Sample.groq_says (py "What is a mutex?"))
    InterviewState_init.
Proof.
  symmetry.
  refine (proj2 (@upload_resume_resets Sample.resume_pdf Sample.one_page
    (Sample.groq_says (py "What is a mutex?"))
    (serve_all [Sample.upload; Sample.answer; Sample.answer] InterviewState_init)
    _ _ _ _) InterviewState_init).
  vm_compute. reflexivity.
Defined.

Local Arguments parse_feedback : simpl never.
Local Arguments conversation_lines : simpl never.

Lemma generate_feedback_Return groq s fb s' l :
  generate_feedback groq s = (Return fb, s', l) ->
  answers s <> [] /\ s' = s /\
  exists p text, l = [GroqCall p] /\ groq p = GroqContent text /\
                 parse_feedback (strip text) = Return fb.
Proof.
  unfold generate_feedback, generate_feedback_body. run_handler; intros H; inversion H; subst.
  split; [|split; [reflexivity|]].
  - intros E. rewrite E in Heqb. discriminate.
  - eauto 6.
Qed.

Lemma all_in_true keys fb :
  all_in keys fb = Return true -> forall k, In k keys -> py_in k fb = Return true.
Proof.
  induction keys as [|key keys IH]; cbn; [contradiction|].
  unfold bindR. destruct (py_in key fb) as [[|]|] eqn:E; try discriminate.
  intros H k [<-|Hk]; auto.
Qed.

Lemma parse_feedback_keys text fb :
  parse_feedback text = Return fb -> all_in required_keys fb = Return true.
Proof.
  unfold parse_feedback, bindR.
  match goal with |- context [match ?x with Return _ => _ | Raise _ => _ end] =>
    destruct x as [v|] end; [|discriminate].
  destruct (all_in required_keys v) as [[|]|] eqn:E; cbn; try discriminate.
  intros H. inversion H; subst. exact E.
Qed.

(** ** Feedback *)

(** C6 (as amended).  With no recorded answer, [generate_feedback] fails:
    its body raises the "No interview answers to evaluate" error with
    status 400 before any call, and the handler raises.  When it returns
    a record, at least one answer was recorded and the record has the
    four required fields; its score is whatever the model text holds. *)
Theorem generate_feedback_contract :
  forall (groq : prompt -> groq_reply) (s : InterviewState),
    (answers s = [] ->
     generate_feedback_body groq s =
       (Raise (HTTPException 400 (Lit "No interview answers to evaluate")), s, []) /\
     exists e, generate_feedback groq s = (Raise e, s, [])) /\
    (forall fb, result_of (generate_feedback groq s) = Return fb ->
                answers s <> [] /\
                forall k, In k required_keys -> py_in k fb = Return true).
Proof.
  intros groq s. split.
  - intros E. unfold generate_feedback, generate_feedback_body.
    unfold_handler. rewrite E. cbn. eauto.
  - intros fb H.
    destruct (generate_feedback groq s) as [[r s'] l] eqn:G. cbn in H. subst r.
    apply generate_feedback_Return in G. destruct G as (Ha & _ & p & text & _ & _ & Hp).
    split; [exact Ha|]. apply all_in_true. eapply parse_feedback_keys; eauto.
Qed.

Lemma generate_feedback_contract_witness :
  (exists e, generate_feedback Sample.groq_down InterviewState_init
             = (Raise e, InterviewState_init, [])) /\
  py_in (py "score") Sample.feedback_object = Return true.
Proof.
  split.
  - exact (proj2 (proj1 (@generate_feedback_contract Sample.groq_down InterviewState_init)
                    eq_refl)).
  - refine (proj2 (proj2 (@generate_feedback_contract
              (Sample.groq_says Sample.feedback_text)
              (serve_all [Sample.upload; Sample.answer] InterviewState_init))
              Sample.feedback_object _) (py "score") _).
    + vm_compute. reflexivity.
    + cbn. auto.
Defined.

(** C6, counterexample.  A model text with score 150 is returned as it
    is. *)
Lemma score_out_of_range :
  exists d,
    result_of (generate_feedback (Sample.groq_says Sample.feedback_text_150)
                 (serve_all [Sample.upload; Sample.answer] InterviewState_init))
      = Return (PDict d) /\
    dict_get d (py "score") = Some (PInt 150) /\
    ~ (0 <= 150 <= 100).
Proof. eexists. vm_compute. repeat split. intros [_ H]. apply H. reflexivity. Qed.

(** ** [json.loads] on a text that opens with a brace *)

Section JsonObject.

Import Json.

Lemma last_cons_cons {A} (a b : A) l d : last (a :: b :: l) d = last (b :: l) d.
Proof. reflexivity. Qed.

Lemma complete_open_dict v f st e' st' :
  dict_frame (last (f :: st) (FList [])) = true ->
  complete v (f :: st) = Some (e', st') -> open_dict e' st'.
Proof.
  intros H C. destruct f; cbn in C; inversion C; subst; cbn [open_dict]; (split; [discriminate|]).
  - destruct st; [discriminate|]. now rewrite last_cons_cons in *.
  - destruct st; [reflexivity|]. now rewrite last_cons_cons in *.
Qed.

Lemma begin_value_open_dict t st e' st' :
  st <> [] -> dict_frame (last st (FList [])) = true ->
  begin_value t st = Some (e', st') -> open_dict e' st'.
Proof.
  intros N H B. destruct st as [|f st]; [congruence|].
  destruct t; cbn [begin_value] in B; try discriminate;
    try (eapply complete_open_dict; eauto; fail);
    inversion B; subst; cbn [open_dict]; (split; [discriminate|]);
    now rewrite last_cons_cons.
Qed.

Lemma close_open_dict v f st e' st' :
  dict_frame (last (f :: st) (FList [])) = true ->
  (st = [] -> exists d, v = PDict d) ->
  complete v st = Some (e', st') -> open_dict e' st'.
Proof.
  intros H Hv C. destruct st as [|g st].
  - cbn in C. inversion C; subst. cbn. auto.
  - rewrite last_cons_cons in H. eapply complete_open_dict; eauto.
Qed.

Lemma step_open_dict e st t e' st' :
  open_dict e st -> step e st t = Some (e', st') -> open_dict e' st'.
Proof.
  intros O S.
  destruct e; cbn [open_dict] in O; try (destruct O as [N H]).
  all: try (destruct st as [|f st]; [congruence|]).
  - eapply begin_value_open_dict; eauto.
  - destruct t; cbn [step] in S; try (eapply begin_value_open_dict; eauto; fail).
    destruct f; try discriminate.
    eapply close_open_dict; [exact H | | exact S]. intros ->. cbn in H. discriminate.
  - destruct t; cbn [step] in S; try discriminate.
    + destruct f; try discriminate. eapply close_open_dict; [exact H | eauto | exact S].
    + inversion S; subst. cbn. split; [discriminate|auto].
  - destruct t; cbn [step] in S; try discriminate.
    inversion S; subst. cbn. split; [discriminate|auto].
  - destruct t; cbn [step] in S; try discriminate.
    destruct f; try discriminate. inversion S; subst. cbn [open_dict].
    split; [discriminate|]. destruct st; [reflexivity|]. now rewrite last_cons_cons in *.
  - destruct t; cbn [step] in S; try discriminate.
    + destruct f; try discriminate. eapply close_open_dict; [exact H | eauto | exact S].
    + destruct f; try discriminate. eapply close_open_dict; [exact H | | exact S]. intros ->. cbn in H. discriminate.
    + destruct f; try discriminate; inversion S; subst; cbn; split; auto; discriminate.
  - cbn in S. destruct t; discriminate.
Qed.

Lemma parse_open_dict ts : forall e st v,
  open_dict e st -> parse e st ts = Some v -> exists d, v = PDict d.
Proof.
  induction ts as [|t ts IH]; intros e st v O P; cbn in P.
  - destruct e; try discriminate. inversion P; subst. exact (proj2 O).
  - destruct (step e st t) as [[e' st']|] eqn:S; [|discriminate].
    eapply IH; [eapply step_open_dict; eassumption | exact P].
Qed.

Lemma loads_brace_dict (r : str) (v : pyval) :
  loads (LBRACE :: r) = Return v -> exists d, v = PDict d.
Proof.
  unfold loads. cbn [lex].
  change (starts_number LBRACE r) with false. cbn.
  destruct (lex (LxTok []) r) as [ts|]; cbn; [|discriminate].
  destruct (parse EKeyOrClose [FDictK []] ts) as [w|] eqn:P; [|discriminate].
  intros H. inversion H; subst. eapply parse_open_dict; eauto.
  cbn. split; [discriminate|reflexivity].
Qed.

End JsonObject.

(** ** Feedback extraction *)

Lemma find_spec (s : str) (c : char) :
  (find s c = -1 /\ ~ In c s) \/
  (exists pre post, s = pre ++ c :: post /\ ~ In c pre /\
                    find s c = Z.of_nat (List.length pre)).
Proof.
  induction s as [|x s IH]; cbn [find].
  - left. split; auto.
  - destruct (N.eqb_spec x c) as [->|N].
    + right. exists [], s. repeat split; auto.
    + destruct IH as [[E H] | (pre & post & -> & H & E)].
      * rewrite E. cbn. left. split; auto. intros [?|?]; auto.
      * right. rewrite E. exists (x :: pre), post.
        destruct (Z.eqb_spec (Z.of_nat (List.length pre)) (-1)); [lia|].
        repeat split; [intros [?|?]; auto | cbn [List.length]; lia].
Qed.

Lemma rfind_spec (s : str) (c : char) :
  (rfind s c = -1 /\ ~ In c s) \/
  (exists pre post, s = pre ++ c :: post /\ ~ In c post /\
                    rfind s c = Z.of_nat (List.length pre)).
Proof.
  induction s as [|x s IH]; cbn [rfind].
  - left. split; auto.
  - destruct IH as [[E H] | (pre & post & -> & H & E)].
    + rewrite E. cbn. destruct (N.eqb_spec x c) as [->|N].
      * right. exists [], s. repeat split; auto.
      * left. split; auto. intros [?|?]; auto.
    + right. rewrite E. exists (x :: pre), post.
      destruct (Z.eqb_spec (Z.of_nat (List.length pre)) (-1)); [lia|].
      repeat split; [auto | cbn [List.length]; lia].
Qed.

Lemma slice_from_find (s : str) (c : char) (b : Z) :
  find s c <> -1 ->
  slice s (find s c) b = [] \/ exists r, slice s (find s c) b = c :: r.
Proof.
  intros N. destruct (find_spec s c) as [[E _] | (pre & post & -> & _ & E)]; [congruence|].
  rewrite E. unfold slice. rewrite Nat2Z.id, skipn_app, skipn_all, Nat.sub_diag. cbn [skipn app].
  destruct (Z.to_nat (b - Z.of_nat (List.length pre))); cbn; eauto.
Qed.

Lemma loads_slice_dict (s : str) (b : Z) (v : pyval) :
  find s LBRACE <> -1 ->
  Json.loads (slice s (find s LBRACE) b) = Return v -> exists d, v = PDict d.
Proof.
  intros N H. destruct (slice_from_find s LBRACE b N) as [E | [r E]]; rewrite E in H.
  - vm_compute in H. discriminate.
  - eapply loads_brace_dict; eauto.
Qed.

Lemma all_in_dict keys d :
  all_in keys (PDict d) =
  Return (forallb (fun k => match dict_get d k with Some _ => true | None => false end) keys).
Proof.
  induction keys as [|k keys IH]; cbn; [reflexivity|].
  destruct (dict_get d k); cbn; auto.
Qed.

Lemma has_all_keys d keys :
  forallb (fun k => match dict_get d k with Some _ => true | None => false end) keys = true
  <-> forall k, In k keys -> dict_get d k <> None.
Proof.
  rewrite forallb_forall. split; intros H k Hk; specialize (H k Hk);
    destruct (dict_get d k); congruence.
Qed.

Lemma lacks_a_key d keys :
  forallb (fun k => match dict_get d k with Some _ => true | None => false end) keys = false
  <-> exists k, In k keys /\ dict_get d k = None.
Proof.
  split.
  - intros H. induction keys as [|k keys IH]; cbn in H; [discriminate|].
    destruct (dict_get d k) eqn:E.
    + destruct (IH H) as (k' & ? & ?). exists k'. cbn. auto.
    + exists k. cbn. auto.
  - intros (k & Hk & E). destruct (forallb _ keys) eqn:F; auto.
    rewrite forallb_forall in F. specialize (F k Hk). rewrite E in F. discriminate.
Qed.

(** Feedback extraction on the stripped text. *)
Lemma parse_feedback_cases :
  forall response_content : str,
    let start_idx := find response_content LBRACE in
    let end_idx := rfind response_content RBRACE in
    let json_str := slice response_content start_idx (end_idx + 1) in
    let no_pair := start_idx = -1 \/ end_idx = -1 in
    (forall fb, parse_feedback response_content = Return fb <->
       ~ no_pair /\ Json.loads json_str = Return fb /\
       exists d, fb = PDict d /\ forall k, In k required_keys -> dict_get d k <> None) /\
    ((exists e, parse_feedback response_content = Raise e) <->
       no_pair \/ (exists e, Json.loads json_str = Raise e) \/
       (exists d k, Json.loads json_str = Return (PDict d) /\
                    In k required_keys /\ dict_get d k = None)).
Proof.
  intros rc start_idx end_idx json_str no_pair.
  split.
  all: unfold parse_feedback; fold start_idx end_idx json_str.
  all: destruct (Z.eqb_spec start_idx (-1)) as [Es|Ns];
       [|destruct (Z.eqb_spec end_idx (-1)) as [Ee|Ne]]; cbn [negb andb bindR].
  - intros fb. split; [discriminate|]. intros (N & _). exfalso. apply N. left; auto.
  - intros fb. split; [discriminate|]. intros (N & _). exfalso. apply N. right; auto.
  - intros fb. destruct (Json.loads json_str) as [v|e] eqn:L; cbn [bindR].
    + destruct (loads_slice_dict _ _ Ns L) as [d ->].
      rewrite all_in_dict. cbn [bindR].
      destruct (forallb _ required_keys) eqn:F; cbn [negb].
      * split.
        -- intros H. inversion H; subst. split; [intros [?|?]; auto|]. split; auto.
           exists d. split; auto. exact (proj1 (@has_all_keys d required_keys) F).
        -- intros (_ & H & _). congruence.
      * split; [discriminate|]. intros (_ & H & d' & -> & K).
        inversion H; subst. pose proof (proj2 (@has_all_keys d' required_keys) K). congruence.
    + split; [discriminate|]. intros (_ & H & _). discriminate.
  - split; eauto. left. left. auto.
  - split; eauto. left. right. auto.
  - destruct (Json.loads json_str) as [v|e] eqn:L; cbn [bindR].
    + destruct (loads_slice_dict _ _ Ns L) as [d ->].
      rewrite all_in_dict. cbn [bindR].
      destruct (forallb _ required_keys) eqn:F; cbn [negb].
      * split; [intros [e H]; discriminate|].
        intros [[?|?] | [[e H] | (d' & k & H & Hk & E)]]; try contradiction; try discriminate.
        inversion H; subst. destruct (proj1 (@has_all_keys d' required_keys) F k Hk E).
      * split; [|eauto]. intros _. right. right.
        destruct (proj1 (@lacks_a_key d required_keys) F) as (k & ? & ?). eauto 6.
    + split; eauto.
Qed.

Lemma find_first (pre post : str) (c : char) :
  ~ In c pre -> find (pre ++ c :: post) c = Z.of_nat (List.length pre).
Proof.
  induction pre as [|x pre IH]; intros H; cbn [app find List.length].
  - now rewrite N.eqb_refl.
  - destruct (N.eqb_spec x c) as [->|N]; [exfalso; apply H; left; auto|].
    rewrite IH by (intros ?; apply H; right; auto).
    destruct (Z.eqb_spec (Z.of_nat (List.length pre)) (-1)); lia.
Qed.

Lemma find_absent (s : str) (c : char) : ~ In c s -> find s c = -1.
Proof.
  intros H. destruct (find_spec s c) as [[E _] | (pre & post & -> & _ & _)]; auto.
  exfalso. apply H, in_or_app. right. left. auto.
Qed.

Lemma rfind_last (pre post : str) (c : char) :
  ~ In c post -> rfind (pre ++ c :: post) c = Z.of_nat (List.length pre).
Proof.
  intros H. induction pre as [|x pre IH]; cbn [app rfind List.length].
  - destruct (rfind_spec post c) as [[E _] | (p & q & -> & _ & _)].
    + rewrite E. cbn. now rewrite N.eqb_refl.
    + exfalso. apply H, in_or_app. right. left. auto.
  - rewrite IH. destruct (Z.eqb_spec (Z.of_nat (List.length pre)) (-1)); lia.
Qed.

Lemma rfind_absent (s : str) (c : char) : ~ In c s -> rfind s c = -1.
Proof.
  intros H. destruct (rfind_spec s c) as [[E _] | (pre & post & -> & _ & _)]; auto.
  exfalso. apply H, in_or_app. right. left. auto.
Qed.

Lemma lstrip_spec (s : str) :
  exists w, s = w ++ lstrip s /\ Forall (fun c => isspace c = true) w.
Proof.
  induction s as [|c s (w & E & F)]; cbn [lstrip].
  - exists []. split; auto.
  - destruct (isspace c) eqn:I.
    + exists (c :: w). split; [cbn; congruence | constructor; auto].
    + exists []. split; auto.
Qed.

Lemma strip_spec (s : str) :
  exists w1 w2, s = w1 ++ strip s ++ w2 /\
                Forall (fun c => isspace c = true) w1 /\
                Forall (fun c => isspace c = true) w2.
Proof.
  destruct (lstrip_spec s) as (w1 & E1 & F1).
  destruct (lstrip_spec (rev (lstrip s))) as (w2 & E2 & F2).
  exists w1, (rev w2). unfold strip, rstrip. split; [|split; auto].
  - rewrite <- rev_app_distr, <- E2, rev_involutive. exact E1.
  - apply Forall_rev. exact F2.
Qed.

Lemma space_not_in (w : str) (c : char) :
  isspace c = false -> Forall (fun x => isspace x = true) w -> ~ In c w.
Proof.
  intros N F H. rewrite Forall_forall in F. specialize (F c H). congruence.
Qed.

Lemma slice_inside (w1 u w2 : str) (a b : nat) :
  (b <= List.length u)%nat ->
  slice (w1 ++ u ++ w2) (Z.of_nat (List.length w1 + a)) (Z.of_nat (List.length w1 + b))
  = slice u (Z.of_nat a) (Z.of_nat b).
Proof.
  intros Hb. unfold slice. rewrite !Nat2Z.id.
  replace (Z.to_nat (Z.of_nat (List.length w1 + b) - Z.of_nat (List.length w1 + a)))
    with (b - a)%nat by lia.
  replace (Z.to_nat (Z.of_nat b - Z.of_nat a)) with (b - a)%nat by lia.
  rewrite skipn_app.
  destruct (Nat.le_gt_cases b a) as [Hle|Hgt].
  - replace (b - a)%nat with 0%nat by lia. reflexivity.
  - replace (List.length w1 + a - List.length w1)%nat with a by lia.
    rewrite skipn_all2 by lia. cbn [app].
    rewrite skipn_app, firstn_app, length_skipn.
    replace (b - a - (List.length u - a))%nat with 0%nat by lia.
    cbn [firstn]. now rewrite app_nil_r.
Qed.

Lemma find_in_stripped (w1 u w2 : str) (c : char) :
  ~ In c w1 -> ~ In c w2 ->
  (find u c = -1 /\ find (w1 ++ u ++ w2) c = -1) \/
  (exists a, find u c = Z.of_nat a /\ (a < List.length u)%nat /\
             find (w1 ++ u ++ w2) c = Z.of_nat (List.length w1 + a)).
Proof.
  intros H1 H2. destruct (find_spec u c) as [[E N] | (pre & post & -> & N & E)].
  - left. split; auto. apply find_absent. intros H.
    apply in_app_or in H. destruct H as [H|H]; auto.
    apply in_app_or in H. destruct H; auto.
  - right. exists (List.length pre). split; auto. split.
    + rewrite length_app. cbn. lia.
    + rewrite <- app_assoc, app_assoc. cbn [app]. rewrite find_first.
      * now rewrite length_app.
      * intros H. apply in_app_or in H. destruct H; auto.
Qed.

Lemma rfind_in_stripped (w1 u w2 : str) (c : char) :
  ~ In c w1 -> ~ In c w2 ->
  (rfind u c = -1 /\ rfind (w1 ++ u ++ w2) c = -1) \/
  (exists b, rfind u c = Z.of_nat b /\ (b < List.length u)%nat /\
             rfind (w1 ++ u ++ w2) c = Z.of_nat (List.length w1 + b)).
Proof.
  intros H1 H2. destruct (rfind_spec u c) as [[E N] | (pre & post & -> & N & E)].
  - left. split; auto. apply rfind_absent. intros H.
    apply in_app_or in H. destruct H as [H|H]; auto.
    apply in_app_or in H. destruct H; auto.
  - right. exists (List.length pre). split; auto. split.
    + rewrite length_app. cbn. lia.
    + rewrite <- app_assoc, app_assoc. cbn [app]. rewrite rfind_last.
      * now rewrite length_app.
      * intros H. apply in_app_or in H. destruct H; auto.
Qed.

(** Stripping the text moves neither brace out of it: each brace is found
    in the stripped text exactly when it is in the text, and the slice
    between them is the same. *)
Lemma strip_braces (text : str) :
  (find (strip text) LBRACE = -1 <-> find text LBRACE = -1) /\
  (rfind (strip text) RBRACE = -1 <-> rfind text RBRACE = -1) /\
  (find text LBRACE <> -1 -> rfind text RBRACE <> -1 ->
   slice (strip text) (find (strip text) LBRACE) (rfind (strip text) RBRACE + 1)
   = slice text (find text LBRACE) (rfind text RBRACE + 1)).
Proof.
  destruct (strip_spec text) as (w1 & w2 & E & F1 & F2).
  assert (L1 : ~ In LBRACE w1) by (apply space_not_in; auto).
  assert (L2 : ~ In LBRACE w2) by (apply space_not_in; auto).
  assert (R1 : ~ In RBRACE w1) by (apply space_not_in; auto).
  assert (R2 : ~ In RBRACE w2) by (apply space_not_in; auto).
  generalize dependent (strip text). intros u ->.
  destruct (@find_in_stripped w1 u w2 LBRACE L1 L2) as [[Ea Ea'] | (a & Ea & Ha & Ea')];
  destruct (@rfind_in_stripped w1 u w2 RBRACE R1 R2) as [[Eb Eb'] | (b & Eb & Hb & Eb')];
    rewrite Ea, Ea', Eb, Eb'.
  all: split; [split; intros; lia|]; split; [split; intros; lia|]; intros; try lia.
  replace (Z.of_nat (List.length w1 + b) + 1) with (Z.of_nat (List.length w1 + S b)) by lia.
  replace (Z.of_nat b + 1) with (Z.of_nat (S b)) by lia.
  symmetry. apply slice_inside. lia.
Qed.

(** C5.  For every model text, feedback extraction parses exactly the
    slice between the first opening brace and the last closing brace
    (inclusive) as JSON: it returns the parsed object, and only that,
    when both braces exist, the slice parses and the four required fields
    are present; it raises exactly when a brace is missing, the slice
    does not parse, or a required field is absent.  A record returned by
    [generate_feedback] is always one extracted from the model text.  On
    the sample text with prose around the object it returns the embedded
    object. *)
Theorem feedback_extraction :
  forall text : str,
    let start_idx := find text LBRACE in
    let end_idx := rfind text RBRACE in
    let json_str := slice text start_idx (end_idx + 1) in
    let no_pair := start_idx = -1 \/ end_idx = -1 in
    (forall fb, parse_feedback (strip text) = Return fb <->
       ~ no_pair /\ Json.loads json_str = Return fb /\
       exists d, fb = PDict d /\ forall k, In k required_keys -> dict_get d k <> None) /\
    ((exists e, parse_feedback (strip text) = Raise e) <->
       no_pair \/ (exists e, Json.loads json_str = Raise e) \/
       (exists d k, Json.loads json_str = Return (PDict d) /\
                    In k required_keys /\ dict_get d k = None)) /\
    (forall groq s fb,
       result_of (generate_feedback groq s) = Return fb ->
       exists p content, groq p = GroqContent content /\
                         parse_feedback (strip content) = Return fb) /\
    parse_feedback (strip Sample.feedback_text) = Return Sample.feedback_object /\
    result_of (generate_feedback (Sample.groq_says Sample.feedback_text)
                 (serve_all [Sample.upload; Sample.answer] InterviewState_init))
      = Return Sample.feedback_object.
Proof.
  intros text start_idx end_idx json_str no_pair.
  destruct (strip_braces text) as (Hs & He & Hj).
  destruct (parse_feedback_cases (strip text)) as [Hok Herr].
  cbv zeta in Hok, Herr.
  assert (P : (find (strip text) LBRACE = -1 \/ rfind (strip text) RBRACE = -1) <-> no_pair)
    by (unfold no_pair, start_idx, end_idx; tauto).
  assert (J : ~ no_pair ->
              slice (strip text) (find (strip text) LBRACE) (rfind (strip text) RBRACE + 1)
              = json_str).
  { intros N. apply Hj; intros E; apply N; [left | right]; exact E. }
  split; [|split; [|split; [|split]]].
  - intros fb. rewrite Hok. rewrite P. split.
    + intros (N & L & D). rewrite (J N) in L. auto.
    + intros (N & L & D). rewrite <- (J N) in L. auto.
  - rewrite Herr. rewrite P. split.
    + intros [N | H]; [left; exact N|].
      destruct (Z.eq_dec start_idx (-1)) as [E|Ns]; [left; left; exact E|].
      destruct (Z.eq_dec end_idx (-1)) as [E|Ne]; [left; right; exact E|].
      rewrite J in H by (intros [?|?]; contradiction). right. exact H.
    + intros [N | H]; [left; exact N|].
      destruct (Z.eq_dec start_idx (-1)) as [E|Ns]; [left; left; exact E|].
      destruct (Z.eq_dec end_idx (-1)) as [E|Ne]; [left; right; exact E|].
      rewrite <- J in H by (intros [?|?]; contradiction). right. exact H.
  - intros groq s fb H.
    destruct (generate_feedback groq s) as [[r s'] l] eqn:G. cbn in H. subst r.
    apply generate_feedback_Return in G.
    destruct G as (_ & _ & p & content & _ & Hg & Hp). eauto.
  - vm_compute. reflexivity.
  - vm_compute. reflexivity.
Qed.

Lemma feedback_extraction_witness :
  exists d, Sample.feedback_object = PDict d /\
            forall k, In k required_keys -> dict_get d k <> None.
Proof.
  refine (proj2 (proj2 (proj1 (proj1 (@feedback_extraction Sample.feedback_text)
            Sample.feedback_object) _))).
  vm_compute. reflexivity.
Defined.

(** ** The matcher and the two patterns *)

Local Open Scope nat_scope.

Section Patterns.

Import Re.

Lemma match_here_sound p : forall s pos g r,
  match_here p s pos g = Some r -> matches p s pos g r.
Proof.
  induction p as [|i p IH]; intros s pos g r H.
  - cbn in H. inversion H. constructor.
  - destruct i as [a|a| |].
    + cbn in H. destruct s as [|c s]; [discriminate|].
      destruct (atom_matches a c) eqn:A; [|discriminate].
      constructor; auto.
    + revert pos g r H. induction s as [|c s IHs]; intros pos g r H; cbn in H; [discriminate|].
      destruct (atom_matches a c) eqn:A; [|discriminate].
      match type of H with match ?x with _ => _ end = _ => destruct x as [r'|] eqn:M end.
      * inversion H; subst. apply matches_plus_more; auto.
      * apply matches_plus_last; auto.
    + cbn in H. constructor; auto.
    + cbn in H. constructor; auto.
Qed.

Lemma match_here_complete p s pos g r :
  matches p s pos g r -> exists r', match_here p s pos g = Some r'.
Proof.
  induction 1 as [ | | | a p c s pos g r A _ IH | a p c s pos g r A _ IH | a p c s pos g r A _ IH];
    cbn; eauto.
  - rewrite A. exact IH.
  - rewrite A. destruct IH as [r' E]. cbn in E. rewrite E. eauto.
  - rewrite A. destruct IH as [r' E].
    match goal with |- exists _, match ?x with _ => _ end = _ => destruct x end; eauto.
Qed.

Lemma matches_plus a p s pos g r :
  matches (IPlus a :: p) s pos g r <->
  exists c s', s = c ++ s' /\ c <> [] /\
               Forall (fun x => atom_matches a x = true) c /\
               matches p s' (pos + List.length c) g r.
Proof.
  split.
  - intros H. remember (IPlus a :: p) as q eqn:Q. revert Q.
    induction H as [ | | | | a' p' c s pos g r A H IH | a' p' c s pos g r A H _];
      intros Q; inversion Q; subst.
    + destruct (IH eq_refl) as (c0 & s' & -> & _ & F & M).
      exists (c :: c0), s'. repeat split; auto; try discriminate.
      cbn [List.length]. now replace (pos + S (List.length c0)) with (S pos + List.length c0) by lia.
    + exists [c], s. repeat split; auto; try discriminate.
      cbn. now replace (pos + 1) with (S pos) by lia.
  - intros (c & s' & -> & N & F & M). revert pos M.
    induction c as [|x c IH]; intros pos M; [congruence|].
    inversion F; subst. destruct c as [|y c].
    + cbn in *. apply matches_plus_last; auto.
      now replace (S pos) with (pos + 1) by lia.
    + cbn [app]. apply matches_plus_more; auto.
      apply IH; auto; try discriminate.
      cbn [List.length] in *. now replace (S pos + S (List.length c)) with (pos + S (S (List.length c))) by lia.
Qed.

Lemma search_from_Some p : forall s pos r,
  search_from p s pos = Some r ->
  exists pre suf, s = pre ++ suf /\
    match_here p suf (pos + List.length pre) span0 = Some r /\
    forall pre' suf', s = pre' ++ suf' -> List.length pre' < List.length pre ->
                      match_here p suf' (pos + List.length pre') span0 = None.
Proof.
  induction s as [|c s IH]; intros pos r H; cbn [search_from] in H.
  - destruct (match_here p [] pos _) eqn:M; [|discriminate].
    inversion H; subst. exists [], []. cbn. rewrite Nat.add_0_r. repeat split; auto.
    intros; lia.
  - destruct (match_here p (c :: s) pos _) eqn:M.
    + inversion H; subst. exists [], (c :: s). cbn. rewrite Nat.add_0_r.
      repeat split; auto. intros; lia.
    + destruct (IH _ _ H) as (pre & suf & -> & Hm & Hmin).
      exists (c :: pre), suf. cbn [List.length app].
      replace (pos + S (List.length pre)) with (S pos + List.length pre) by lia.
      repeat split; auto.
      intros pre' suf' E L. destruct pre' as [|x pre'].
      * cbn in E. subst suf'. cbn. now rewrite Nat.add_0_r.
      * cbn in E. inversion E; subst. cbn [List.length] in *.
        replace (pos + S (List.length pre')) with (S pos + List.length pre') by lia.
        apply Hmin; auto. lia.
Qed.

Lemma search_from_None p : forall s pos,
  search_from p s pos = None ->
  forall pre suf, s = pre ++ suf ->
                  match_here p suf (pos + List.length pre) span0 = None.
Proof.
  induction s as [|c s IH]; intros pos H pre suf E; cbn [search_from] in H.
  - destruct pre; [|discriminate]. cbn in E. subst. cbn. rewrite Nat.add_0_r.
    destruct (match_here p [] pos _); congruence.
  - destruct (match_here p (c :: s) pos _) eqn:M; [discriminate|].
    destruct pre as [|x pre].
    + cbn in E. subst. cbn. now rewrite Nat.add_0_r.
    + cbn in E. inversion E; subst. cbn [List.length].
      replace (pos + S (List.length pre)) with (S pos + List.length pre) by lia.
      eapply IH; eauto.
Qed.

(** The quoted pattern at the head of a text. *)
Lemma matches_quoted s pos g r :
  matches QUOTED_QUESTION s pos g r <->
  exists c post, s = [DQ] ++ (c ++ [QMARK]) ++ [DQ] ++ post /\ c <> [] /\ ~ In DQ c /\
                 r = {| span_start := S pos; span_end := S pos + List.length c + 1 |}.
Proof.
  unfold QUOTED_QUESTION. split.
  - intros H. inversion H as [ | | |a p c0 s0 pos0 g0 r0 A H1| | ]; subst. clear H.
    cbn in A. apply N.eqb_eq in A. subst c0.
    inversion H1 as [ |p s1 pos1 g1 r1 H2 | | | | ]; subst. clear H1.
    apply matches_plus in H2. destruct H2 as (c & s' & -> & N & F & H3).
    inversion H3 as [ | | |a p c1 s1 pos1 g1 r1 A1 H4| | ]; subst. clear H3.
    cbn in A1. apply N.eqb_eq in A1. subst c1.
    inversion H4 as [ | |p s2 pos2 g2 r2 H5 | | | ]; subst. clear H4.
    inversion H5 as [ | | |a p c2 s2 pos2 g2 r2 A2 H6| | ]; subst. clear H5.
    cbn in A2. apply N.eqb_eq in A2. subst c2.
    inversion H6; subst. cbn.
    exists c, s2. repeat split; auto.
    + now rewrite <- !app_assoc.
    + intros I. rewrite Forall_forall in F. specialize (F _ I). cbn in F.
      discriminate.
    + f_equal. lia.
  - intros (c & post & -> & N & I & ->). cbn [app].
    apply matches_one; [reflexivity|].
    apply matches_open. apply matches_plus.
    exists c, (QMARK :: DQ :: post). rewrite <- app_assoc. repeat split; auto.
    + rewrite Forall_forall. intros x Hx. cbn.
      destruct (N.eqb_spec x DQ) as [->|]; [contradiction|reflexivity].
    + apply matches_one; [reflexivity|]. apply matches_close.
      apply matches_one; [reflexivity|]. cbn.
      match goal with |- matches [] _ _ ?g ?r => replace r with g by (f_equal; lia) end.
      constructor.
Qed.

(** The sentence pattern at the head of a text. *)
Lemma matches_sentence s pos g r :
  matches SENTENCE_QUESTION s pos g r <->
  exists c post, s = (c ++ [QMARK]) ++ post /\ c <> [] /\
                 (forall x, In x c -> x <> DOT /\ x <> BANG /\ x <> QMARK) /\
                 r = {| span_start := pos; span_end := pos + List.length c + 1 |}.
Proof.
  unfold SENTENCE_QUESTION. split.
  - intros H. inversion H as [ |p s1 pos1 g1 r1 H2 | | | | ]; subst. clear H.
    apply matches_plus in H2. destruct H2 as (c & s' & -> & N & F & H3).
    inversion H3 as [ | | |a p c1 s1 pos1 g1 r1 A1 H4| | ]; subst. clear H3.
    cbn in A1. apply N.eqb_eq in A1. subst c1.
    inversion H4 as [ | |p s2 pos2 g2 r2 H5 | | | ]; subst. clear H4.
    inversion H5; subst. cbn.
    exists c, s1. repeat split; auto.
    1: now rewrite <- !app_assoc.
    1-3: intros ->; rewrite Forall_forall in F; specialize (F _ H); cbn in F; discriminate.
    f_equal. lia.
  - intros (c & post & -> & N & I & ->). rewrite <- app_assoc. cbn [app].
    apply matches_open. apply matches_plus.
    exists c, (QMARK :: post). repeat split; auto.
    + rewrite Forall_forall. intros x Hx. destruct (I x Hx) as (A & B & C). cbn.
      destruct (N.eqb_spec x DOT); [contradiction|].
      destruct (N.eqb_spec x BANG); [contradiction|].
      destruct (N.eqb_spec x QMARK); [contradiction|]. reflexivity.
    + apply matches_one; [reflexivity|]. apply matches_close. cbn.
      match goal with |- matches [] _ _ ?g ?r => replace r with g by (f_equal; lia) end.
      constructor.
Qed.

Lemma split_unique {A} (x : A) (a a' b b' : list A) :
  ~ In x a -> ~ In x a' -> a ++ x :: b = a' ++ x :: b' -> a = a'.
Proof.
  revert a'. induction a as [|y a IH]; intros [|y' a'] H H' E; cbn in E; auto.
  - inversion E; subst. exfalso. apply H'. left; auto.
  - inversion E; subst. exfalso. apply H. left; auto.
  - inversion E; subst. f_equal. eapply IH; eauto; intros ?; [apply H | apply H']; right; auto.
Qed.

Lemma app_same_length {A} (a a' b b' : list A) :
  a ++ b = a' ++ b' -> List.length a = List.length a' -> a = a' /\ b = b'.
Proof.
  revert a'. induction a as [|x a IH]; intros [|x' a'] E L; cbn in *; try discriminate; auto.
  inversion E; subst. destruct (IH a' H1) as [-> ->]; auto.
Qed.

Lemma slice_group (pre q post text : str) (a b : nat) :
  text = pre ++ q ++ post -> a = List.length pre -> b = a + List.length q ->
  firstn (b - a) (skipn a text) = q.
Proof.
  intros -> -> ->.
  rewrite skipn_app, skipn_all, Nat.sub_diag. cbn [skipn app].
  replace (List.length pre + List.length q - List.length pre) with (List.length q) by lia.
  rewrite firstn_app, firstn_all, Nat.sub_diag. cbn. apply app_nil_r.
Qed.

Lemma quoted_question_at_matches text i q :
  quoted_question_at text i q <->
  exists pre suf r, text = pre ++ suf /\ List.length pre = i /\
    matches QUOTED_QUESTION suf i span0 r /\
    q = firstn (span_end r - span_start r) (skipn (span_start r) text).
Proof.
  split.
  - intros (pre & c & post & -> & L & -> & N & I).
    exists pre, ([DQ] ++ (c ++ [QMARK]) ++ [DQ] ++ post). eexists.
    split; [reflexivity|]. split; [exact L|]. split.
    + apply matches_quoted. exists c, post. repeat split; auto.
    + cbn [span_start span_end]. subst i.
      symmetry. apply (@slice_group (pre ++ [DQ]) (c ++ [QMARK]) ([DQ] ++ post)).
      * apply app_assoc.
      * rewrite length_app. cbn. lia.
      * rewrite length_app. cbn. lia.
  - intros (pre & suf & r & -> & L & M & ->).
    apply matches_quoted in M. destruct M as (c & post & -> & N & I & ->).
    cbn [span_start span_end]. subst i.
    match goal with |- quoted_question_at _ _ ?x => assert (E : x = c ++ [QMARK]) end.
    { apply (@slice_group (pre ++ [DQ]) (c ++ [QMARK]) ([DQ] ++ post)).
      - apply app_assoc.
      - rewrite length_app. cbn. lia.
      - rewrite length_app. cbn. lia. }
    rewrite E. exists pre, c, post. repeat split; auto.
Qed.

Lemma sentence_question_at_matches text i q :
  sentence_question_at text i q <->
  exists pre suf r, text = pre ++ suf /\ List.length pre = i /\
    matches SENTENCE_QUESTION suf i span0 r /\
    q = firstn (span_end r - span_start r) (skipn (span_start r) text).
Proof.
  split.
  - intros (pre & c & post & -> & L & -> & N & I).
    exists pre, ((c ++ [QMARK]) ++ post). eexists.
    split; [reflexivity|]. split; [exact L|]. split.
    + apply matches_sentence. exists c, post. repeat split; auto; apply I; auto.
    + cbn [span_start span_end]. subst i.
      symmetry. apply (@slice_group pre (c ++ [QMARK]) post); auto.
      rewrite length_app. cbn. lia.
  - intros (pre & suf & r & -> & L & M & ->).
    apply matches_sentence in M. destruct M as (c & post & -> & N & I & ->).
    cbn [span_start span_end]. subst i.
    match goal with |- sentence_question_at _ _ ?x => assert (E : x = c ++ [QMARK]) end.
    { apply (@slice_group pre (c ++ [QMARK]) post); auto.
      rewrite length_app. cbn. lia. }
    rewrite E. exists pre, c, post. repeat split; auto; apply I; auto.
Qed.

(** What [re.search] finds is the leftmost place where the pattern
    matches; [at_ text i q] says that it matches at offset [i] with
    group [q]. *)
Section LeftmostMatch.

Variable p : pattern.
Variable at_ : str -> nat -> str -> Prop.
Hypothesis at_matches : forall text i q,
  at_ text i q <->
  exists pre suf r, text = pre ++ suf /\ List.length pre = i /\
    matches p suf i span0 r /\
    q = firstn (span_end r - span_start r) (skipn (span_start r) text).

Lemma search_group1_Some text q :
  search_group1 p text = Some q ->
  exists i, at_ text i q /\ forall j q', at_ text j q' -> i <= j.
Proof.
  unfold search_group1. destruct (search_from p text 0) as [r|] eqn:S; [|discriminate].
  intros H. inversion H; subst. clear H.
  apply search_from_Some in S. destruct S as (pre & suf & -> & M & Min). cbn in M.
  exists (List.length pre). split.
  - apply at_matches. exists pre, suf, r. repeat split; auto using match_here_sound.
  - intros j q' A. apply at_matches in A.
    destruct A as (pre' & suf' & r' & E & L & M' & _).
    destruct (Nat.le_gt_cases (List.length pre) j) as [|G]; auto.
    apply match_here_complete in M'. destruct M' as [r'' M'].
    rewrite <- L in G. specialize (Min pre' suf' E G). cbn in Min. rewrite L in Min.
    congruence.
Qed.

Lemma search_group1_None text :
  search_group1 p text = None -> forall i q, ~ at_ text i q.
Proof.
  unfold search_group1. destruct (search_from p text 0) as [r|] eqn:S; [discriminate|].
  intros _ i q A. apply at_matches in A.
  destruct A as (pre & suf & r & E & L & M & _).
  apply match_here_complete in M. destruct M as [r' M].
  pose proof (@search_from_None p text 0 S pre suf E) as N. cbn in N. rewrite L in N. congruence.
Qed.

End LeftmostMatch.

Lemma quoted_question_at_unique text i q q' :
  quoted_question_at text i q -> quoted_question_at text i q' -> q = q'.
Proof.
  intros (pre & c & post & E & L & -> & _ & I) (pre' & c' & post' & E' & L' & -> & _ & I').
  rewrite E in E'. destruct (app_same_length _ _ _ _ E') as [_ E2]; [congruence|].
  cbn [app] in E2. inversion E2 as [E3]. rewrite <- !app_assoc in E3. cbn [app] in E3.
  assert (Q : ~ In DQ (c ++ [QMARK])).
  { intros H. apply in_app_or in H. destruct H as [H|[H|[]]]; auto. discriminate. }
  assert (Q' : ~ In DQ (c' ++ [QMARK])).
  { intros H. apply in_app_or in H. destruct H as [H|[H|[]]]; auto. discriminate. }
  eapply split_unique with (x := DQ); eauto. rewrite <- !app_assoc. cbn [app]. exact E3.
Qed.

Lemma sentence_question_at_unique text i q q' :
  sentence_question_at text i q -> sentence_question_at text i q' -> q = q'.
Proof.
  intros (pre & c & post & E & L & -> & _ & I) (pre' & c' & post' & E' & L' & -> & _ & I').
  rewrite E in E'. destruct (app_same_length _ _ _ _ E') as [_ E2]; [congruence|].
  rewrite <- !app_assoc in E2. cbn [app] in E2.
  f_equal. eapply split_unique with (x := QMARK); eauto.
  - intros H. now destruct (I _ H) as (_ & _ & ?).
  - intros H. now destruct (I' _ H) as (_ & _ & ?).
Qed.

Lemma search_quoted text :
  match search_group1 QUOTED_QUESTION text with
  | Some q => first_quoted_question text q
  | None => forall i q, ~ quoted_question_at text i q
  end.
Proof.
  destruct (search_group1 QUOTED_QUESTION text) as [q|] eqn:S.
  - exact (@search_group1_Some _ _ quoted_question_at_matches _ _ S).
  - exact (@search_group1_None _ _ quoted_question_at_matches _ S).
Qed.

Lemma search_sentence text :
  match search_group1 SENTENCE_QUESTION text with
  | Some q => first_sentence_question text q
  | None => forall i q, ~ sentence_question_at text i q
  end.
Proof.
  destruct (search_group1 SENTENCE_QUESTION text) as [q|] eqn:S.
  - exact (@search_group1_Some _ _ sentence_question_at_matches _ _ S).
  - exact (@search_group1_None _ _ sentence_question_at_matches _ S).
Qed.

Lemma first_quoted_question_search text q :
  first_quoted_question text q -> search_group1 QUOTED_QUESTION text = Some q.
Proof.
  intros (i & A & Min). pose proof (search_quoted text) as S.
  destruct (search_group1 QUOTED_QUESTION text) as [q0|].
  - destruct S as (i0 & A0 & Min0). f_equal.
    assert (i0 = i) by (specialize (Min _ _ A0); specialize (Min0 _ _ A); lia). subst.
    eapply quoted_question_at_unique; eauto.
  - destruct (S _ _ A).
Qed.

Lemma first_sentence_question_search text q :
  first_sentence_question text q -> search_group1 SENTENCE_QUESTION text = Some q.
Proof.
  intros (i & A & Min). pose proof (search_sentence text) as S.
  destruct (search_group1 SENTENCE_QUESTION text) as [q0|].
  - destruct S as (i0 & A0 & Min0). f_equal.
    assert (i0 = i) by (specialize (Min _ _ A0); specialize (Min0 _ _ A); lia). subst.
    eapply sentence_question_at_unique; eauto.
  - destruct (S _ _ A).
Qed.

Lemma no_quoted_question_search text :
  (forall i q, ~ quoted_question_at text i q) -> search_group1 QUOTED_QUESTION text = None.
Proof.
  intros H. pose proof (search_quoted text) as S.
  destruct (search_group1 QUOTED_QUESTION text) as [q0|]; auto.
  destruct S as (i & A & _). destruct (H _ _ A).
Qed.

Lemma no_sentence_question_search text :
  (forall i q, ~ sentence_question_at text i q) -> search_group1 SENTENCE_QUESTION text = None.
Proof.
  intros H. pose proof (search_sentence text) as S.
  destruct (search_group1 SENTENCE_QUESTION text) as [q0|]; auto.
  destruct S as (i & A & _). destruct (H _ _ A).
Qed.

Lemma extraction_fallback_str text :
  exists s, extraction_fallback text = Return (PStr s).
Proof.
  unfold extraction_fallback.
  destruct (search_group1 QUOTED_QUESTION text); eauto.
  destruct (search_group1 SENTENCE_QUESTION text); eauto.
Qed.

End Patterns.

(** ** Question extraction *)

Lemma extract_unfold text :
  extract_question_from_response text = extract_after_loads (Json.loads text) text.
Proof.
  unfold extract_question_from_response, extract_after_loads, extraction_fallback.
  destruct (Json.loads text) as [[]|e]; reflexivity.
Qed.

Lemma extract_json text v :
  json_question text v -> extract_question_from_response text = Return v.
Proof.
  intros (d & L & G). unfold extract_question_from_response. now rewrite L, G.
Qed.

Lemma extract_no_json text :
  loads_caught text ->
  (forall v, ~ json_question text v) ->
  extract_question_from_response text = extraction_fallback text.
Proof.
  intros C H. rewrite extract_unfold. unfold extract_after_loads.
  destruct (Json.loads text) as [v|e] eqn:L.
  - destruct v; try reflexivity.
    destruct (dict_get d QUESTION_KEY) as [q|] eqn:G; [|reflexivity].
    exfalso. apply (H q). exists d. auto.
  - now rewrite (C e L).
Qed.

Lemma after_loads_caught loaded text :
  (forall e, loaded = Raise e -> is_JSONDecodeError e = true) ->
  exists v, extract_after_loads loaded text = Return v /\
            ((exists s, v = PStr s) \/
             exists d, loaded = Return (PDict d) /\ dict_get d QUESTION_KEY = Some v).
Proof.
  intros C. destruct (extraction_fallback_str text) as [s F].
  unfold extract_after_loads. destruct loaded as [v|e].
  - destruct v; try (exists (PStr s); split; [exact F | eauto]).
    destruct (dict_get d QUESTION_KEY) as [q|] eqn:G.
    + exists q. split; [reflexivity | eauto].
    + exists (PStr s). split; [exact F | eauto].
  - rewrite (C e eq_refl). exists (PStr s). split; [exact F | eauto].
Qed.

Lemma after_loads_Raise loaded text e :
  extract_after_loads loaded text = Raise e <->
  loaded = Raise e /\ is_JSONDecodeError e = false.
Proof.
  destruct (extraction_fallback_str text) as [s F].
  unfold extract_after_loads. destruct loaded as [v|e0].
  - split; [|intros (H & _); discriminate].
    destruct v; rewrite ?F; try discriminate.
    destruct (dict_get d QUESTION_KEY); rewrite ?F; discriminate.
  - destruct (is_JSONDecodeError e0) eqn:J.
    + rewrite F. split; [discriminate|]. intros (H & N). inversion H; subst. congruence.
    + split.
      * intros H. inversion H; subst. auto.
      * intros (H & _). exact H.
Qed.

Lemma extracted_question_ends text out :
  extracted_question text = Return out -> endswith out [QMARK] = true.
Proof.
  unfold extracted_question, bindR.
  destruct (extract_question_from_response text) as [v|]; [|discriminate].
  apply ensure_question_mark_Return.
Qed.

(** C4 (as amended).  Question extraction tries in order: (1) when the
    text is a JSON object with a [question] field, the value of that
    field; otherwise, provided the JSON parser raised nothing but the
    [JSONDecodeError] that line 69 catches, (2) the contents of the
    first quoted substring ending in a question mark; otherwise (3) the
    first run of characters other than dot, exclamation and question
    mark that a question mark ends, trimmed; otherwise (4) the whole
    trimmed text.  Another exception of the parser is not caught: it
    leaves the function, and then no step applies.  A question mark is
    appended to a string result that lacks one, so that every question
    produced ends with one; a [question] field that is not a string is
    left out of this statement.  The three sample texts yield the three
    questions of the specification. *)
Theorem extraction_steps :
  forall text : str,
    (forall v, json_question text v ->
               extract_question_from_response text = Return v) /\
    (loads_caught text -> (forall v, ~ json_question text v) ->
     (forall q, first_quoted_question text q ->
                extract_question_from_response text = Return (PStr q)) /\
     ((forall i q, ~ quoted_question_at text i q) ->
      (forall q, first_sentence_question text q ->
                 extract_question_from_response text = Return (PStr (strip q))) /\
      ((forall i q, ~ sentence_question_at text i q) ->
       extract_question_from_response text = Return (PStr (strip text))))) /\
    extract_question_from_response text = extract_after_loads (Json.loads text) text /\
    (forall e, is_JSONDecodeError e = false ->
               extract_after_loads (Raise e) text = Raise e) /\
    (forall q, extract_question_from_response text = Return (PStr q) ->
               extracted_question text =
                 Return (if endswith q [QMARK] then q else q ++ [QMARK])) /\
    (forall out, extracted_question text = Return out ->
                 endswith out [QMARK] = true) /\
    extracted_question Sample.json_mutex = Return (py "What is a mutex?") /\
    extracted_question Sample.prose_quoted = Return (py "Explain your caching design?") /\
    extracted_question Sample.plain_text = Return (py "Tell me about your last project?").
Proof.
  intros text. split; [|split; [|split; [|split; [|split; [|split]]]]].
  - intros v. apply extract_json.
  - intros C NJ. rewrite (extract_no_json C NJ). unfold extraction_fallback. split.
    + intros q F. now rewrite (first_quoted_question_search F).
    + intros NQ. rewrite (no_quoted_question_search NQ). split.
      * intros q F. now rewrite (first_sentence_question_search F).
      * intros NS. now rewrite (no_sentence_question_search NS).
  - apply extract_unfold.
  - intros e J. apply after_loads_Raise. auto.
  - intros q E. unfold extracted_question. rewrite E. reflexivity.
  - apply extracted_question_ends.
  - repeat split; vm_compute; reflexivity.
Qed.

Lemma extraction_steps_witness :
  extract_question_from_response Sample.prose_quoted
  = Return (PStr (py "Explain your caching design?")).
Proof.
  refine (proj1 (proj1 (proj2 (@extraction_steps Sample.prose_quoted)) _ _)
            (py "Explain your caching design?") _).
  - intros e L. vm_compute in L. inversion L. reflexivity.
  - intros v (d & L & _). vm_compute in L. discriminate.
  - exists 20%nat. split.
    + exists (py "Here is a question: "), (py "Explain your caching design"), [].
      repeat split; try reflexivity; [discriminate|].
      vm_compute. intuition discriminate.
    + intros j q' (pre & c & post & T & Lp & _).
      destruct (Nat.le_gt_cases 20 j) as [G | G]; [exact G|]. exfalso.
      subst j. revert T.
      do 20 (destruct pre as [|? pre]; [vm_compute; discriminate|]; cbn in G).
      lia.
Defined.

(** C4, counterexample.  On a JSON object whose [question] field is
    [null] the suffix step raises: no question ending with a question
    mark is produced. *)
Lemma non_string_question_has_no_output :
  extracted_question Sample.json_question_null = Raise AttributeError /\
  ~ exists out, extracted_question Sample.json_question_null = Return out /\
                endswith out [QMARK] = true.
Proof.
  split; [vm_compute; reflexivity|]. intros (out & H & _). vm_compute in H. discriminate.
Qed.

(** C9 (as amended).  Question extraction returns without raising for
    every input text on which the JSON parser returns or raises the
    [JSONDecodeError] that line 69 catches (the empty text, text that is
    not JSON, JSON that is not an object or has no [question] field
    included).  The value is a string, except when the text is a JSON
    object with a [question] field: then it is the value of that field,
    whatever its type.  The function raises exactly when the parser
    raises another exception, which it lets through. *)
Theorem extraction_total :
  forall text : str,
    (loads_caught text ->
     exists v, extract_question_from_response text = Return v /\
               ((exists s, v = PStr s) \/ json_question text v)) /\
    extract_question_from_response text = extract_after_loads (Json.loads text) text /\
    (forall loaded e, extract_after_loads loaded text = Raise e <->
                      loaded = Raise e /\ is_JSONDecodeError e = false) /\
    extract_question_from_response [] = Return (PStr []) /\
    extract_question_from_response (py "no json here") = Return (PStr (py "no json here")) /\
    extract_question_from_response (py "[1, 2]") = Return (PStr (py "[1, 2]")) /\
    extract_question_from_response (py "{}") = Return (PStr (py "{}")).
Proof.
  intros text. split; [|split; [|split]].
  - intros C. rewrite extract_unfold.
    destruct (@after_loads_caught (Json.loads text) text C) as (v & E & [S | (d & L & G)]).
    + exists v. auto.
    + exists v. split; [exact E|]. right. exists d. auto.
  - apply extract_unfold.
  - intros loaded e. apply after_loads_Raise.
  - repeat split; vm_compute; reflexivity.
Qed.

Lemma extraction_total_witness :
  exists v, extract_question_from_response (py "no json here") = Return v /\
            ((exists s, v = PStr s) \/ json_question (py "no json here") v).
Proof.
  refine (proj1 (@extraction_total (py "no json here")) _).
  intros e L. vm_compute in L. inversion L. reflexivity.
Defined.

(** C9, counterexample.  The number in the [question] field is returned,
    and it is not a string. *)
Lemma question_field_5_is_returned :
  extract_question_from_response Sample.json_question_5 = Return (PInt 5) /\
  ~ exists s, extract_question_from_response Sample.json_question_5 = Return (PStr s).
Proof.
  split; [vm_compute; reflexivity|]. intros (s & H). vm_compute in H. discriminate.
Qed.

(** * Part III: further properties of the handlers *)

Local Open Scope Z_scope.

(** ** Uploading a resume: failures *)

(** X1.  When [upload_resume] answers with status 400 (wrong extension,
    empty file, unreadable PDF, failing page, no text), the session is
    exactly as it was before the request and the language model has not
    been called: the reset of lines 116-120 comes after every check. *)
Theorem upload_rejection_keeps_session :
  forall file pdf groq s detail,
    result_of (upload_resume file pdf groq s) = Raise (HTTPException 400 detail) ->
    session_of (upload_resume file pdf groq s) = s /\
    existsb is_GroqCall (calls_of (upload_resume file pdf groq s)) = false.
Proof.
  intros file pdf groq s detail. unfold upload_resume.
  run_handler; intros H; try discriminate; split; reflexivity.
Qed.

Lemma upload_rejection_keeps_session_witness :
  session_of (upload_resume Scenario.notes_txt Sample.one_page Sample.groq_down
                Scenario.two_answers) = Scenario.two_answers /\
  existsb is_GroqCall
    (calls_of (upload_resume Scenario.notes_txt Sample.one_page Sample.groq_down
                 Scenario.two_answers)) = false.
Proof.
  refine (@upload_rejection_keeps_session Scenario.notes_txt Sample.one_page
            Sample.groq_down Scenario.two_answers
            (Lit "Only PDF files are supported") _).
  vm_compute. reflexivity.
Defined.

(** X2.  Every failure of [upload_resume] is an [HTTPException] with
    status 400 or 500.  A failure with status 500 on a file that has a
    name happens after the reset: the PDF was read, the session left
    behind is the empty session holding the new resume text, whatever
    interview was in progress before, and the detail is that of a failed
    language-model call, also when the reply arrived and only its
    processing failed. *)
Theorem upload_failure_wipes_session :
  forall file pdf groq s e,
    result_of (upload_resume file pdf groq s) = Raise e ->
    exists status detail,
      e = HTTPException status detail /\
      (status = 400 \/ status = 500) /\
      (status = 500 -> filename file <> None ->
       exists pages text e',
         pdf (file_content file) = Some pages /\
         extract_pages pages [] = Return text /\
         session_of (upload_resume file pdf groq s) = reset_session text /\
         detail = Fmt "Error calling Groq API: " e').
Proof.
  intros file pdf groq s e. unfold upload_resume.
  run_handler; intros H; inversion H; subst; clear H.
  all: do 2 eexists; split; [reflexivity|]; split; [auto|].
  all: intros S N; try discriminate; try congruence.
  all: do 3 eexists; split; [reflexivity|]; split; [eassumption|];
       split; reflexivity.
Qed.

Lemma upload_failure_wipes_session_witness :
  exists status detail,
    HTTPException 500 (Fmt "Error calling Groq API: " CollaboratorError)
      = HTTPException status detail /\
    (status = 400 \/ status = 500) /\
    (status = 500 -> filename Sample.resume_pdf <> None ->
     exists pages text e',
       Sample.one_page (file_content Sample.resume_pdf) = Some pages /\
       extract_pages pages [] = Return text /\
       session_of (upload_resume Sample.resume_pdf Sample.one_page Sample.groq_down
                     Scenario.two_answers) = reset_session text /\
       detail = Fmt "Error calling Groq API: " e').
Proof.
  refine (@upload_failure_wipes_session Sample.resume_pdf Sample.one_page
            Sample.groq_down Scenario.two_answers
            (HTTPException 500 (Fmt "Error calling Groq API: " CollaboratorError)) _).
  vm_compute. reflexivity.
Defined.

(** ** Uploading a resume: success *)

Lemma extract_pages_Return pages : forall acc text,
  extract_pages pages acc = Return text <->
  exists texts, pages = map Some texts /\ text = acc ++ List.concat texts.
Proof.
  induction pages as [|p pages IH]; intros acc text; cbn.
  - split.
    + intros H. inversion H; subst. exists []. cbn. now rewrite app_nil_r.
    + intros ([|] & E & ->); [cbn; now rewrite app_nil_r | discriminate].
  - destruct p as [t|]; cbn.
    + rewrite IH. split.
      * intros (texts & -> & ->). exists (t :: texts). cbn. now rewrite app_assoc.
      * intros ([|t' texts] & E & ->); [discriminate|]. inversion E; subst.
        exists texts. cbn. now rewrite app_assoc.
    + split; [discriminate|]. intros ([|t' texts] & E & _); discriminate.
Qed.

(** X3.  When [upload_resume] returns normally, every page of the PDF
    gave its text, the resume text stored is the concatenation of the
    page texts in order and is not blank, the services called are the
    PDF reader and then the language model, once, with the prompt built
    from that text, and the question returned is what extraction followed
    by the question-mark step gives on the trimmed reply; it ends with a
    question mark. *)
Theorem upload_success_question :
  forall file pdf groq s r,
    result_of (upload_resume file pdf groq s) = Return r ->
    exists texts content,
      pdf (file_content file) = Some (map Some texts) /\
      strip (List.concat texts) <> [] /\
      resume_text (session_of (upload_resume file pdf groq s)) = List.concat texts /\
      groq (FirstQuestionPrompt (List.concat texts)) = GroqContent content /\
      extracted_question (strip content) = Return (upload_question r) /\
      endswith (upload_question r) [QMARK] = true /\
      calls_of (upload_resume file pdf groq s)
      = [PdfReaderCall; GroqCall (FirstQuestionPrompt (List.concat texts))].
Proof.
  intros file pdf groq s r. unfold upload_resume.
  run_handler; intros H; inversion H; subst; clear H.
  match goal with E : extract_pages _ [] = Return _ |- _ =>
    apply extract_pages_Return in E; destruct E as (texts & -> & ->) end.
  cbn [app] in *.
  match goal with E : groq _ = GroqContent ?c |- _ => exists texts, c end.
  repeat split; auto.
  - match goal with E : strip _ = _ :: _ |- _ => rewrite E end. discriminate.
  - unfold extracted_question.
    match goal with E : extract_question_from_response _ = Return _ |- _ => rewrite E end.
    assumption.
  - eapply ensure_question_mark_Return; eauto.
Qed.

Lemma upload_success_question_witness :
  exists texts content,
    Sample.one_page (file_content Sample.resume_pdf) = Some (map Some texts) /\
    strip (List.concat texts) <> [] /\
    resume_text (session_of (upload_resume Sample.resume_pdf Sample.one_page
                               (Sample.groq_says (py "What is a mutex?"))
                               InterviewState_init)) = List.concat texts /\
    Sample.groq_says (py "What is a mutex?") (FirstQuestionPrompt (List.concat texts))
      = GroqContent content /\
    extracted_question (strip content) = Return (py "What is a mutex?") /\
    endswith (py "What is a mutex?") [QMARK] = true /\
    calls_of (upload_resume Sample.resume_pdf Sample.one_page
                (Sample.groq_says (py "What is a mutex?")) InterviewState_init)
    = [PdfReaderCall; GroqCall (FirstQuestionPrompt (List.concat texts))].
Proof.
  refine (@upload_success_question Sample.resume_pdf Sample.one_page
            (Sample.groq_says (py "What is a mutex?")) InterviewState_init
            {| upload_message := "Resume processed successfully";
               upload_question := py "What is a mutex?" |} _).
  vm_compute. reflexivity.
Defined.

Lemma lstrip_blank (s : str) :
  Forall (fun c => isspace c = true) s -> lstrip s = [].
Proof.
  induction 1 as [|c s H _ IH]; cbn; auto. now rewrite H.
Qed.

Lemma strip_blank (s : str) :
  Forall (fun c => isspace c = true) s -> strip s = [].
Proof.
  intros H. unfold strip, rstrip. now rewrite (lstrip_blank H).
Qed.

(** X4.  A reply of the language model that is empty or only white
    space is not an error: for a valid PDF with text, [upload_resume]
    returns normally and the first question of the interview is the
    single character [?]. *)
Theorem upload_blank_reply :
  forall file pdf groq s name texts content,
    filename file = Some name -> endswith name (py ".pdf") = true ->
    file_content file <> [] ->
    pdf (file_content file) = Some (map Some texts) ->
    strip (List.concat texts) <> [] ->
    groq (FirstQuestionPrompt (List.concat texts)) = GroqContent content ->
    Forall (fun c => isspace c = true) content ->
    result_of (upload_resume file pdf groq s)
    = Return {| upload_message := "Resume processed successfully";
                upload_question := [QMARK] |} /\
    session_of (upload_resume file pdf groq s)
    = started_session (List.concat texts) [QMARK].
Proof.
  intros file pdf groq s name texts content Hn He Hc Hp Ht Hg Hb.
  assert (X : extract_pages (map Some texts) [] = Return (List.concat texts))
    by (apply extract_pages_Return; eauto).
  unfold upload_resume. unfold_handler.
  rewrite Hn. cbn. cbn in He. rewrite He. cbn.
  destruct (file_content file) as [|b bs] eqn:Ec; [congruence|].
  rewrite Hp. cbn. rewrite X. cbn.
  destruct (strip (List.concat texts)) eqn:Es; [congruence|].
  rewrite Hg. cbn. rewrite (strip_blank Hb).
  split; reflexivity.
Qed.

Lemma upload_blank_reply_witness :
  result_of (upload_resume Sample.resume_pdf Sample.one_page
               (Sample.groq_says (py "  ")) InterviewState_init)
  = Return {| upload_message := "Resume processed successfully";
              upload_question := [QMARK] |} /\
  session_of (upload_resume Sample.resume_pdf Sample.one_page
                (Sample.groq_says (py "  ")) InterviewState_init)
  = started_session (List.concat [py "Python developer"]) [QMARK].
Proof.
  refine (@upload_blank_reply Sample.resume_pdf Sample.one_page
            (Sample.groq_says (py "  ")) InterviewState_init
            (py "resume.pdf") [py "Python developer"] (py "  ") _ _ _ _ _ _ _).
  - reflexivity.
  - vm_compute. reflexivity.
  - vm_compute. discriminate.
  - reflexivity.
  - vm_compute. discriminate.
  - reflexivity.
  - vm_compute. repeat constructor.
Defined.

(** ** Status codes *)

(** X5.  [get_next_question], [transcribe_audio] and
    [generate_feedback] never answer with another error status than 500:
    they have no [except HTTPException] clause, so their own status-400
    exceptions are caught by the outer [except Exception] and raised
    again with status 500. *)
Theorem handlers_raise_status_500 :
  forall tts file dg groq s e,
    result_of (get_next_question tts s) = Raise e \/
    result_of (transcribe_audio file dg groq s) = Raise e \/
    result_of (generate_feedback groq s) = Raise e ->
    status_of e = Some 500.
Proof.
  intros tts file dg groq s e [H | [H | H]]; revert H.
  - unfold get_next_question. run_handler; intros H; inversion H; reflexivity.
  - unfold transcribe_audio. run_handler; intros H; inversion H; reflexivity.
  - unfold generate_feedback, generate_feedback_body.
    run_handler; intros H; inversion H; reflexivity.
Qed.

Lemma handlers_raise_status_500_witness :
  status_of
    (HTTPException 500
       (StrOf (HTTPException 400
                 (Lit "No questions available. Please upload a resume first."))))
  = Some 500.
Proof.
  refine (@handlers_raise_status_500 Sample.speaks Sample.answer_wav
            (Sample.hears (py "It is a lock.")) Sample.groq_down InterviewState_init
            _ (or_introl _)).
  vm_compute. reflexivity.
Defined.

(** X6.  Once Deepgram has been called, every failure of
    [transcribe_audio] carries the same detail, that of a transcription
    error: the message of a failed follow-up generation (line 274) is
    replaced by the enclosing handlers (lines 279-285) and never
    reaches the client. *)
Theorem transcribe_error_is_masked :
  forall file dg groq s e,
    result_of (transcribe_audio file dg groq s) = Raise e ->
    existsb is_DeepgramCall (calls_of (transcribe_audio file dg groq s)) = true ->
    e = HTTPException 500 (StrOf (HTTPException 500 (Lit "Error transcribing audio"))).
Proof.
  intros file dg groq s e. unfold transcribe_audio.
  run_handler; intros H C; inversion H; subst; try reflexivity; discriminate.
Qed.

Lemma transcribe_error_is_masked_witness :
  result_of (transcribe_audio Sample.answer_wav (Sample.hears (py "It is a lock."))
               Sample.groq_down Sample.started)
  = Raise (HTTPException 500 (StrOf (HTTPException 500 (Lit "Error transcribing audio")))).
Proof.
  destruct (result_of (transcribe_audio Sample.answer_wav
                         (Sample.hears (py "It is a lock."))
                         Sample.groq_down Sample.started)) as [t|e] eqn:R.
  - vm_compute in R. discriminate.
  - f_equal.
    refine (@transcribe_error_is_masked Sample.answer_wav
              (Sample.hears (py "It is a lock.")) Sample.groq_down Sample.started
              e R _).
    vm_compute. reflexivity.
Defined.

(** X22.  Once the language model has been called, every failure of
    [generate_feedback] has status 500 and, inside the detail added by
    the outermost handler, the detail of a failed feedback generation:
    the more specific exceptions for a reply that does not parse or
    lacks a field (lines 344-349) are caught again at line 351. *)
Theorem feedback_error_is_wrapped :
  forall groq s e,
    result_of (generate_feedback groq s) = Raise e ->
    existsb is_GroqCall (calls_of (generate_feedback groq s)) = true ->
    exists e',
      e = HTTPException 500
            (StrOf (HTTPException 500 (Fmt "Error generating feedback: " e'))).
Proof.
  intros groq s e. unfold generate_feedback, generate_feedback_body.
  run_handler; intros H C; inversion H; subst; try discriminate; eauto.
Qed.

Lemma feedback_error_is_wrapped_witness :
  exists e',
    HTTPException 500
      (StrOf (HTTPException 500
                (Fmt "Error generating feedback: "
                   (HTTPException 500
                      (Fmt "Invalid feedback format: "
                         (ValueError "Could not find JSON object in response"))))))
    = HTTPException 500
        (StrOf (HTTPException 500 (Fmt "Error generating feedback: " e'))).
Proof.
  refine (@feedback_error_is_wrapped (Sample.groq_says (py "Well done"))
            Scenario.one_answer _ _ _).
  - vm_compute. reflexivity.
  - vm_compute. reflexivity.
Defined.

(** ** The question in progress *)

Section InProgress.
Local Arguments list_index : simpl never.

(** X7.  In every reachable session that has a question and whose
    counter is below 3, the question at the counter exists (the index
    at line 181 never fails), [get_next_question] calls the speech
    service once, on that question, and returns it with its audio,
    [question_number] the counter plus one and [total_questions] 3; the
    only failure is that of the speech service. *)
Theorem next_question_in_progress :
  forall s tts,
    reachable s -> questions s <> [] -> current_question s < 3 ->
    exists q,
      nth_error (questions s) (Z.to_nat (current_question s)) = Some q /\
      calls_of (get_next_question tts s) = [GTTSCall q] /\
      result_of (get_next_question tts s) =
        match tts q with
        | Some audio => Return (Question q audio (current_question s + 1) 3)
        | None =>
            Raise (HTTPException 500
                     (StrOf (HTTPException 500
                               (Lit "Error generating audio for question"))))
        end.
Proof.
  intros s tts R N C. apply reachable_inv in R. destruct R as (H0 & _ & _ & H3).
  specialize (H3 N).
  destruct (nth_error (questions s) (Z.to_nat (current_question s))) as [q|] eqn:E.
  2: { apply nth_error_None in E. lia. }
  exists q. split; [reflexivity|].
  unfold get_next_question. unfold_handler.
  assert (L : list_index (questions s) (current_question s) = Return q).
  { unfold list_index.
    destruct (Z.ltb_spec (current_question s) 0); [lia|].
    destruct (Z.ltb_spec (current_question s) 0); [lia|].
    now rewrite E. }
  destruct (questions s) as [|q0 qs] eqn:Q; [congruence|]. cbn.
  destruct (Z.geb_spec (current_question s) 3); [lia|]. cbn.
  rewrite Q, L. cbn. destruct (tts q); cbn; split; reflexivity.
Qed.

Lemma next_question_in_progress_witness :
  exists q,
    nth_error (questions Scenario.one_answer)
      (Z.to_nat (current_question Scenario.one_answer)) = Some q /\
    calls_of (get_next_question Sample.speaks Scenario.one_answer) = [GTTSCall q] /\
    result_of (get_next_question Sample.speaks Scenario.one_answer) =
      match Sample.speaks q with
      | Some audio =>
          Return (Question q audio (current_question Scenario.one_answer + 1) 3)
      | None =>
          Raise (HTTPException 500
                   (StrOf (HTTPException 500
                             (Lit "Error generating audio for question"))))
      end.
Proof.
  refine (@next_question_in_progress Scenario.one_answer Sample.speaks _ _ _).
  - exists [Sample.upload; Sample.answer]. reflexivity.
  - vm_compute. discriminate.
  - vm_compute. reflexivity.
Defined.

End InProgress.

(** ** Answers *)

Lemma transcribe_audio_submit file dg groq s name t :
  filename file = Some name -> name <> [] -> file_content file <> [] ->
  dg (file_content file) (content_type file) = Some t ->
  transcribe_audio file dg groq s =
    match submit_answer groq t s with
    | (Return _, s', l) => (Return t, s', DeepgramCall :: l)
    | (Raise _, s', l) =>
        (Raise (HTTPException 500
                  (StrOf (HTTPException 500 (Lit "Error transcribing audio")))),
         s', DeepgramCall :: l)
    end.
Proof.
  intros F N C D. unfold transcribe_audio. unfold_handler. rewrite F.
  destruct name; [congruence|]. destruct (file_content file) eqn:Ec; [congruence|].
  cbn. rewrite D. cbn.
  destruct (submit_answer groq t s) as [[[u|e] s'] cs]; cbn;
    rewrite ?app_nil_r; reflexivity.
Qed.

Lemma submit_answer_final groq t s :
  2 <= current_question s ->
  submit_answer groq t s =
    (Return tt,
     set_current_question (current_question s + 1) (record_answer t s), []).
Proof.
  intros H. unfold submit_answer. unfold_handler. cbn.
  destruct (Z.ltb_spec (current_question s) 2); [lia|]. reflexivity.
Qed.

Lemma conversation_entries_short qs ans t :
  (List.length qs <= List.length ans)%nat ->
  exists e,
    conversation_entries qs (ans ++ [t]) (range (List.length (ans ++ [t]))) = Raise e.
Proof.
  intros H.
  destruct (conversation_entries qs (ans ++ [t]) (range (List.length (ans ++ [t]))))
    as [l|e] eqn:E; [|eauto].
  apply entries_after_append in E. lia.
Qed.

Section Stuck.
Local Arguments conversation_entries : simpl never.
Local Arguments range : simpl never.

Lemma submit_answer_stuck groq t s :
  current_question s < 2 ->
  (List.length (questions s) <= List.length (answers s))%nat ->
  submit_answer groq t s =
    (Raise (HTTPException 500 (Lit "Error generating next question")),
     record_answer t s, []).
Proof.
  intros H L. destruct (conversation_entries_short (questions s) (answers s) t L) as (e & E).
  unfold submit_answer. unfold_handler. cbn.
  destruct (Z.ltb_spec (current_question s) 2); [|lia]. cbn.
  rewrite E. reflexivity.
Qed.

End Stuck.

Lemma list_index_nth {A} (l : list A) (i : nat) (x : A) :
  nth_error l i = Some x -> list_index l (Z.of_nat i) = Return x.
Proof.
  intros H. unfold list_index.
  destruct (Z.ltb_spec (Z.of_nat i) 0); [lia|].
  destruct (Z.ltb_spec (Z.of_nat i) 0); [lia|].
  now rewrite Nat2Z.id, H.
Qed.

Lemma list_index_out {A} (l : list A) (i : nat) :
  (List.length l <= i)%nat -> list_index l (Z.of_nat i) = Raise IndexError.
Proof.
  intros H. unfold list_index.
  destruct (Z.ltb_spec (Z.of_nat i) 0); [lia|].
  destruct (Z.ltb_spec (Z.of_nat i) 0); [lia|].
  rewrite Nat2Z.id. apply nth_error_None in H. now rewrite H.
Qed.

Lemma skipn_nth {A} (l : list A) (i : nat) :
  (i < List.length l)%nat ->
  exists x, nth_error l i = Some x /\ skipn i l = x :: skipn (S i) l.
Proof.
  revert i. induction l as [|a l IH]; intros i H; [cbn in H; lia|].
  destruct i as [|i]; [exists a; split; reflexivity|].
  cbn in H. destruct (IH i) as (x & N & S); [lia|].
  exists x. split; [exact N|exact S].
Qed.

Lemma combine_nil_r {A B} (l : list A) : combine l (@nil B) = [].
Proof. now destruct l. Qed.

Lemma conversation_lines_cons qs ans i rest :
  conversation_lines qs ans (i :: rest) =
    bindR (list_index qs (Z.of_nat i)) (fun q =>
    bindR (list_index ans (Z.of_nat i)) (fun a =>
    bindR (conversation_lines qs ans rest) (fun tl =>
    Return ((py "Q: " ++ q) :: (py "A: " ++ a) :: tl)))).
Proof. reflexivity. Qed.

Lemma conversation_lines_seq qs ans : forall n k,
  (k + n = List.length ans)%nat -> (List.length ans <= List.length qs)%nat ->
  conversation_lines qs ans (seq k n) = Return (qa_lines (skipn k qs) (skipn k ans)).
Proof.
  induction n as [|n IH]; intros k K L.
  - rewrite (skipn_all2 ans) by lia. unfold qa_lines. now rewrite combine_nil_r.
  - cbn [seq]. rewrite conversation_lines_cons.
    destruct (@skipn_nth _ qs k) as (q & Nq & Sq); [lia|].
    destruct (@skipn_nth _ ans k) as (a & Na & Sa); [lia|].
    rewrite (list_index_nth _ _ Nq), (list_index_nth _ _ Na). cbn [bindR].
    rewrite IH by lia. cbn [bindR]. rewrite Sq, Sa. reflexivity.
Qed.

Lemma conversation_lines_zip qs ans :
  (List.length ans <= List.length qs)%nat ->
  conversation_lines qs ans (range (List.length ans)) = Return (qa_lines qs ans).
Proof. intros L. unfold range. now rewrite conversation_lines_seq. Qed.

Lemma conversation_entries_seq qs ans : forall n k,
  (k + n = List.length ans)%nat -> (List.length ans <= List.length qs)%nat ->
  conversation_entries qs ans (seq k n) =
    Return (qa_entries (skipn k qs) (skipn k ans)).
Proof.
  induction n as [|n IH]; intros k K L.
  - rewrite (skipn_all2 ans) by lia. unfold qa_entries. now rewrite combine_nil_r.
  - cbn [seq conversation_entries].
    destruct (@skipn_nth _ qs k) as (q & Nq & Sq); [lia|].
    destruct (@skipn_nth _ ans k) as (a & Na & Sa); [lia|].
    rewrite (list_index_nth _ _ Nq), (list_index_nth _ _ Na). cbn [bindR].
    rewrite IH by lia. cbn [bindR]. rewrite Sq, Sa. reflexivity.
Qed.

Lemma conversation_entries_zip qs ans :
  (List.length ans <= List.length qs)%nat ->
  conversation_entries qs ans (range (List.length ans)) = Return (qa_entries qs ans).
Proof. intros L. unfold range. now rewrite conversation_entries_seq. Qed.

Lemma conversation_lines_out qs ans : forall n k,
  (List.length qs <= k + n)%nat -> (k <= List.length qs)%nat ->
  (k + S n <= List.length ans)%nat ->
  conversation_lines qs ans (seq k (S n)) = Raise IndexError.
Proof.
  induction n as [|n IH]; intros k Q K A.
  - cbn [seq]. rewrite conversation_lines_cons.
    rewrite list_index_out by lia. reflexivity.
  - remember (S n) as m. cbn [seq]. subst m. rewrite conversation_lines_cons.
    destruct (Nat.eq_dec k (List.length qs)) as [E|E].
    + rewrite list_index_out by lia. reflexivity.
    + destruct (@skipn_nth _ qs k) as (q & Nq & _); [lia|].
      destruct (@skipn_nth _ ans k) as (a & Na & _); [lia|].
      rewrite (list_index_nth _ _ Nq), (list_index_nth _ _ Na). cbn [bindR].
      rewrite IH by lia. reflexivity.
Qed.

(** ** Answers, and what the language model is asked *)

Section Prompts.
Local Arguments range : simpl never.
Local Arguments conversation_entries : simpl never.

(** X8.  From the third answer on (counter at 2 or more), a
    transcribed answer is always accepted: [transcribe_audio] returns the
    transcript, records it, advances the counter, and calls Deepgram
    only; the language model is not consulted and no question is added. *)
Theorem final_answer_accepted :
  forall file dg groq s name t,
    filename file = Some name -> name <> [] -> file_content file <> [] ->
    dg (file_content file) (content_type file) = Some t ->
    2 <= current_question s ->
    transcribe_audio file dg groq s =
      (Return t,
       set_current_question (current_question s + 1) (record_answer t s),
       [DeepgramCall]).
Proof.
  intros file dg groq s name t F N C D H.
  rewrite (@transcribe_audio_submit file dg groq s name t F N C D).
  now rewrite submit_answer_final.
Qed.

Lemma final_answer_accepted_witness :
  transcribe_audio Sample.answer_wav (Sample.hears (py "It is a lock."))
    Sample.groq_down Scenario.two_answers
  = (Return (py "It is a lock."),
     set_current_question (current_question Scenario.two_answers + 1)
       (record_answer (py "It is a lock.") Scenario.two_answers),
     [DeepgramCall]).
Proof.
  refine (@final_answer_accepted Sample.answer_wav (Sample.hears (py "It is a lock."))
            Sample.groq_down Scenario.two_answers (py "audio.wav")
            (py "It is a lock.") _ _ _ _ _).
  - reflexivity.
  - vm_compute. discriminate.
  - vm_compute. discriminate.
  - reflexivity.
  - vm_compute. discriminate.
Defined.

(** X9.  While the counter is below 2, an answer that has no question
    of its own (as many answers as questions already, for instance
    before any resume was uploaded) cannot succeed: the transcript is
    recorded, building the conversation text fails at
    [questions[i]], the language model is not called, the counter stays
    and the request fails with status 500. *)
Theorem answer_without_question_fails :
  forall file dg groq s name t,
    filename file = Some name -> name <> [] -> file_content file <> [] ->
    dg (file_content file) (content_type file) = Some t ->
    current_question s < 2 ->
    (List.length (questions s) <= List.length (answers s))%nat ->
    transcribe_audio file dg groq s =
      (Raise (HTTPException 500
                (StrOf (HTTPException 500 (Lit "Error transcribing audio")))),
       record_answer t s, [DeepgramCall]).
Proof.
  intros file dg groq s name t F N C D H L.
  rewrite (@transcribe_audio_submit file dg groq s name t F N C D).
  now rewrite submit_answer_stuck.
Qed.

Lemma answer_without_question_fails_witness :
  transcribe_audio Sample.answer_wav (Sample.hears (py "It is a lock."))
    (Sample.groq_says (py "Why use one?")) InterviewState_init
  = (Raise (HTTPException 500 (StrOf (HTTPException 500 (Lit "Error transcribing audio")))),
     record_answer (py "It is a lock.") InterviewState_init, [DeepgramCall]).
Proof.
  refine (@answer_without_question_fails Sample.answer_wav
            (Sample.hears (py "It is a lock.")) (Sample.groq_says (py "Why use one?"))
            InterviewState_init (py "audio.wav") (py "It is a lock.") _ _ _ _ _ _).
  - reflexivity.
  - vm_compute. discriminate.
  - vm_compute. discriminate.
  - reflexivity.
  - vm_compute. reflexivity.
  - vm_compute. lia.
Defined.

(** X10.  When the session holds more answers than questions,
    [generate_feedback] fails with status 500 on the index error of
    line 296, before the language model is called, and leaves the
    session as it was. *)
Theorem feedback_needs_questions :
  forall groq s,
    (List.length (questions s) < List.length (answers s))%nat ->
    generate_feedback groq s = (Raise (HTTPException 500 (StrOf IndexError)), s, []).
Proof.
  intros groq s L.
  assert (R : conversation_lines (questions s) (answers s)
                (range (List.length (answers s))) = Raise IndexError).
  { unfold range. destruct (List.length (answers s)) as [|n] eqn:E; [lia|].
    apply conversation_lines_out; lia. }
  unfold generate_feedback, generate_feedback_body. unfold_handler.
  destruct (Nat.eqb_spec (List.length (answers s)) 0) as [E|E]; [lia|].
  cbn. rewrite R. reflexivity.
Qed.

Lemma feedback_needs_questions_witness :
  generate_feedback (Sample.groq_says Sample.feedback_text) Scenario.two_failed_answers
  = (Raise (HTTPException 500 (StrOf IndexError)), Scenario.two_failed_answers, []).
Proof.
  refine (@feedback_needs_questions (Sample.groq_says Sample.feedback_text)
            Scenario.two_failed_answers _).
  vm_compute. lia.
Defined.

(** X11.  When there is an answer and no more answers than questions,
    [generate_feedback] calls the language model exactly once, and the
    interview it sends is, for each answer in order, the line
    [Q: question] followed by the line [A: answer], joined by newlines:
    questions that have no answer yet are left out. *)
Theorem feedback_prompt :
  forall groq s,
    answers s <> [] ->
    (List.length (answers s) <= List.length (questions s))%nat ->
    calls_of (generate_feedback groq s) =
      [GroqCall (FeedbackPrompt (resume_text s)
                   (join [NEWLINE] (qa_lines (questions s) (answers s))))].
Proof.
  intros groq s N L. pose proof (conversation_lines_zip _ _ L) as Z.
  unfold generate_feedback, generate_feedback_body. unfold_handler.
  destruct (Nat.eqb_spec (List.length (answers s)) 0) as [E|E].
  { destruct (answers s); [congruence|discriminate]. }
  cbn -[qa_lines join]. rewrite Z. cbn -[qa_lines join].
  destruct (groq _) as [| |c]; cbn -[qa_lines join]; try reflexivity.
  destruct (parse_feedback (strip c)) as [fb|[]]; cbn -[qa_lines join]; reflexivity.
Qed.

Lemma feedback_prompt_witness :
  calls_of (generate_feedback Sample.groq_down Scenario.one_answer) =
    [GroqCall (FeedbackPrompt (resume_text Scenario.one_answer)
                 (join [NEWLINE]
                    (qa_lines (questions Scenario.one_answer)
                       (answers Scenario.one_answer))))].
Proof.
  refine (@feedback_prompt Sample.groq_down Scenario.one_answer _ _).
  - vm_compute. discriminate.
  - vm_compute. lia.
Defined.

Lemma follow_up_prompt_submit :
  forall groq t s,
    current_question s < 2 ->
    (List.length (answers s) < List.length (questions s))%nat ->
    calls_of (submit_answer groq t s) =
      [GroqCall (FollowUpPrompt (resume_text s)
                   (join [NEWLINE] (qa_entries (questions s) (answers s ++ [t]))))].
Proof.
  intros groq t s H L.
  assert (Z : conversation_entries (questions s) (answers s ++ [t])
                (range (List.length (answers s ++ [t]))) =
              Return (qa_entries (questions s) (answers s ++ [t]))).
  { apply conversation_entries_zip. rewrite length_app. cbn. lia. }
  unfold submit_answer. unfold_handler. cbn -[qa_entries join].
  destruct (Z.ltb_spec (current_question s) 2); [|lia].
  cbn -[qa_entries join]. rewrite Z. cbn -[qa_entries join].
  repeat (try case_scrutinee; cbn -[qa_entries join]); reflexivity.
Qed.

End Prompts.

(** X12.  While the counter is below 2 and the answer has a question
    of its own, a transcribed answer makes [transcribe_audio] call
    Deepgram and then the language model, once each, and the
    conversation sent pairs every question with its answer, the answer
    just given included, as [Q: question], newline, [A: answer]. *)
Theorem follow_up_prompt_sent :
  forall file dg groq s name t,
    filename file = Some name -> name <> [] -> file_content file <> [] ->
    dg (file_content file) (content_type file) = Some t ->
    current_question s < 2 ->
    (List.length (answers s) < List.length (questions s))%nat ->
    calls_of (transcribe_audio file dg groq s) =
      [DeepgramCall;
       GroqCall (FollowUpPrompt (resume_text s)
                   (join [NEWLINE] (qa_entries (questions s) (answers s ++ [t]))))].
Proof.
  intros file dg groq s name t F N C D H L.
  rewrite (@transcribe_audio_submit file dg groq s name t F N C D).
  pose proof (@follow_up_prompt_submit groq t s H L) as P.
  destruct (submit_answer groq t s) as [[[u|e] s'] cs]; cbn in P |- *; now rewrite P.
Qed.

Lemma follow_up_prompt_sent_witness :
  calls_of (transcribe_audio Sample.answer_wav (Sample.hears (py "It is a lock."))
              Sample.groq_down Sample.started) =
    [DeepgramCall;
     GroqCall (FollowUpPrompt (resume_text Sample.started)
                 (join [NEWLINE]
                    (qa_entries (questions Sample.started)
                       (answers Sample.started ++ [py "It is a lock."]))))].
Proof.
  refine (@follow_up_prompt_sent Sample.answer_wav (Sample.hears (py "It is a lock."))
            Sample.groq_down Sample.started (py "audio.wav") (py "It is a lock.")
            _ _ _ _ _ _).
  - reflexivity.
  - vm_compute. discriminate.
  - vm_compute. discriminate.
  - reflexivity.
  - vm_compute. reflexivity.
  - vm_compute. lia.
Defined.

(** ** The session after an answer *)

Lemma submit_answer_sessions groq t s :
  let o := submit_answer groq t s in
  (session_of o = record_answer t s /\ current_question s < 2 /\
   exists e, result_of o = Raise e)
  \/ (session_of o = set_current_question (current_question s + 1) (record_answer t s) /\
      2 <= current_question s /\ result_of o = Return tt)
  \/ (exists q, endswith q [QMARK] = true /\
        session_of o = set_current_question (current_question s + 1)
                         (record_question q (record_answer t s)) /\
        current_question s < 2 /\ result_of o = Return tt).
Proof.
  unfold submit_answer. run_handler.
  all: repeat match goal with
         | H : (_ <? _) = true |- _ => apply Z.ltb_lt in H
         | H : (_ <? _) = false |- _ => apply Z.ltb_ge in H
         end.
  all: first
    [ solve [left; split; [reflexivity|]; split; [lia|]; eexists; reflexivity]
    | solve [right; left; split; [reflexivity|]; split; [lia|reflexivity]]
    | solve [right; right; eexists; split;
             [eapply ensure_question_mark_Return; eassumption|];
             split; [reflexivity|]; split; [lia|reflexivity]] ].
Qed.

Lemma serve_transcribe_sessions file dg groq s :
  let s' := serve (Transcribe file dg groq) s in
  s' = s \/
  exists t,
    s' = record_answer t s /\ current_question s < 2
    \/ s' = set_current_question (current_question s + 1) (record_answer t s) /\
       2 <= current_question s
    \/ exists q, endswith q [QMARK] = true /\ current_question s < 2 /\
         s' = set_current_question (current_question s + 1)
                (record_question q (record_answer t s)).
Proof.
  cbn [serve].
  destruct (transcribe_audio_cases file dg groq s) as [(E & _) | (t & _ & E & _)];
    [left; exact E|].
  right. exists t. cbn in E. rewrite E.
  destruct (submit_answer_sessions groq t s)
    as [(S & H & _) | [(S & H & _) | (q & Q & S & H & _)]]; rewrite S; eauto 8.
Qed.

Lemma serve_read_only r s :
  (exists tts, r = NextQuestion tts) \/ (exists groq, r = GenerateFeedback groq) ->
  serve r s = s.
Proof.
  intros [(tts & ->) | (groq & ->)]; cbn [serve].
  - apply get_next_question_session.
  - apply generate_feedback_frame.
Qed.

(** ** The conversation history *)

Lemma turns_of_app r h1 h2 :
  turns_of r (h1 ++ h2) = turns_of r h1 ++ turns_of r h2.
Proof. unfold turns_of. now rewrite filter_app, map_app. Qed.

Lemma turns_of_length h :
  (List.length (turns_of assistant h) + List.length (turns_of user h) =
   List.length h)%nat.
Proof.
  unfold turns_of. induction h as [|[[] c] h IH]; cbn in *; lia.
Qed.

Lemma history_inv_init : history_inv InterviewState_init.
Proof. repeat split; constructor. Qed.

Lemma history_inv_serve r s : history_inv s -> history_inv (serve r s).
Proof.
  intros (A & U & Q).
  destruct r as [file pdf groq | tts | file dg groq | groq].
  - cbn [serve].
    destruct (upload_resume_cases file pdf groq s)
      as [(E & _) | [(text & E & _) | (pages & text & q & _ & _ & Hq & E & _)]];
      rewrite E.
    + repeat split; assumption.
    + repeat split; constructor.
    + repeat split; cbn; auto.
  - rewrite serve_read_only by eauto. repeat split; assumption.
  - destruct (serve_transcribe_sessions file dg groq s)
      as [E | (t & [(E & _) | [(E & _) | (q & Hq & _ & E)]])]; rewrite E.
    + repeat split; assumption.
    + unfold history_inv. cbn -[turns_of]. rewrite !turns_of_app, A, U. cbn.
      rewrite app_nil_r. auto.
    + unfold history_inv. cbn -[turns_of]. rewrite !turns_of_app, A, U. cbn.
      rewrite app_nil_r. auto.
    + unfold history_inv. cbn -[turns_of]. rewrite !turns_of_app, A, U. cbn.
      rewrite !app_nil_r. repeat split; auto.
      apply Forall_app. split; auto.
  - rewrite serve_read_only by eauto. repeat split; assumption.
Qed.

Lemma history_inv_serve_all rs : forall s, history_inv s -> history_inv (serve_all rs s).
Proof.
  induction rs as [|r rs IH]; intros s H; [exact H|].
  cbn. apply IH, history_inv_serve, H.
Qed.

(** X13.  In every reachable session the conversation history is made
    of the questions, as the assistant's turns in order, and of the
    answers, as the user's turns in order, and of nothing else; every
    stored question ends with a question mark; and there are at most
    three questions. *)
Theorem reachable_history :
  forall s, reachable s ->
    history_inv s /\
    (List.length (questions s) <= 3)%nat /\
    List.length (conversation_history s) =
      (List.length (questions s) + List.length (answers s))%nat.
Proof.
  intros s R.
  assert (H : history_inv s).
  { destruct R as (rs & ->). apply history_inv_serve_all, history_inv_init. }
  split; [exact H|]. split.
  - apply reachable_inv in R. destruct R as (_ & _ & _ & L).
    destruct (questions s) as [|q qs] eqn:Q; [cbn; lia|].
    assert (N : q :: qs <> []) by discriminate. specialize (L N). lia.
  - destruct H as (A & U & _). rewrite <- A, <- U at 1. symmetry.
    apply turns_of_length.
Qed.

Lemma reachable_history_witness :
  history_inv Scenario.two_failed_answers /\
  (List.length (questions Scenario.two_failed_answers) <= 3)%nat /\
  List.length (conversation_history Scenario.two_failed_answers) =
    (List.length (questions Scenario.two_failed_answers) +
     List.length (answers Scenario.two_failed_answers))%nat.
Proof.
  refine (@reachable_history Scenario.two_failed_answers _).
  exists [Sample.upload; Sample.answer_groq_down; Sample.answer_groq_down].
  reflexivity.
Defined.

(** ** What a request other than an upload can change *)

(** X14.  A request other than an upload never rewrites the session:
    the resume text stays, questions, answers and history only grow at
    their end, by at most one answer and at most one question, a
    question only together with an answer, and the counter stays or
    advances by one. *)
Theorem session_grows :
  forall r s,
    is_UploadResume r = false ->
    exists qs ans turns,
      questions (serve r s) = questions s ++ qs /\
      answers (serve r s) = answers s ++ ans /\
      conversation_history (serve r s) = conversation_history s ++ turns /\
      resume_text (serve r s) = resume_text s /\
      (List.length qs <= List.length ans <= 1)%nat /\
      current_question s <= current_question (serve r s) <= current_question s + 1.
Proof.
  intros r s U.
  destruct r as [file pdf groq | tts | file dg groq | groq]; [discriminate| | |].
  - rewrite serve_read_only by eauto. exists [], [], [].
    rewrite !app_nil_r. cbn. repeat split; lia.
  - destruct (serve_transcribe_sessions file dg groq s)
      as [E | (t & [(E & _) | [(E & _) | (q & _ & _ & E)]])]; rewrite E.
    + exists [], [], []. rewrite !app_nil_r. cbn. repeat split; lia.
    + exists [], [t], [(user, t)]. rewrite !app_nil_r. cbn. repeat split; lia.
    + exists [], [t], [(user, t)]. rewrite !app_nil_r. cbn. repeat split; lia.
    + exists [q], [t], [(user, t); (assistant, q)]. cbn.
      rewrite <- app_assoc. cbn. repeat split; lia.
  - rewrite serve_read_only by eauto. exists [], [], [].
    rewrite !app_nil_r. cbn. repeat split; lia.
Qed.

Lemma session_grows_witness :
  exists qs ans turns,
    questions (serve Sample.answer Sample.started) = questions Sample.started ++ qs /\
    answers (serve Sample.answer Sample.started) = answers Sample.started ++ ans /\
    conversation_history (serve Sample.answer Sample.started)
      = conversation_history Sample.started ++ turns /\
    resume_text (serve Sample.answer Sample.started) = resume_text Sample.started /\
    (List.length qs <= List.length ans <= 1)%nat /\
    current_question Sample.started
      <= current_question (serve Sample.answer Sample.started)
      <= current_question Sample.started + 1.
Proof.
  refine (@session_grows Sample.answer Sample.started _). reflexivity.
Defined.

(** ** An interview that cannot go on *)

Lemma stuck_serve r s :
  is_UploadResume r = false ->
  current_question s < 2 ->
  (List.length (questions s) <= List.length (answers s))%nat ->
  questions (serve r s) = questions s /\
  current_question (serve r s) = current_question s /\
  (List.length (answers s) <= List.length (answers (serve r s)))%nat.
Proof.
  intros U H L.
  destruct r as [file pdf groq | tts | file dg groq | groq]; [discriminate| | |].
  - rewrite serve_read_only by eauto. auto.
  - cbn [serve].
    destruct (transcribe_audio_cases file dg groq s) as [(E & _) | (t & _ & E & _)];
      cbn in E; rewrite E; [auto|].
    rewrite submit_answer_stuck by assumption. cbn.
    rewrite length_app. cbn. repeat split; lia.
  - rewrite serve_read_only by eauto. auto.
Qed.

Lemma stuck_serve_all rs : forall s,
  forallb (fun r => negb (is_UploadResume r)) rs = true ->
  current_question s < 2 ->
  (List.length (questions s) <= List.length (answers s))%nat ->
  questions (serve_all rs s) = questions s /\
  current_question (serve_all rs s) = current_question s.
Proof.
  induction rs as [|r rs IH]; intros s U H L; [auto|].
  cbn in U. apply andb_prop in U. destruct U as (U & Us).
  apply negb_true_iff in U.
  destruct (stuck_serve r s U H L) as (Q & C & A).
  cbn [serve_all fold_left]. fold (serve_all rs (serve r s)).
  destruct (IH (serve r s) Us) as (Q' & C'); [rewrite C; lia | rewrite Q; lia |].
  split; congruence.
Qed.

(** X15.  A session whose counter is below 2 and that has no more
    questions than answers stays where it is: whatever requests other
    than an upload follow, with whatever behaviour of the services, the
    counter and the questions never change, while the answers given
    keep being recorded.  Only a new upload gets the interview going
    again. *)
Theorem interview_stuck :
  forall rs s,
    forallb (fun r => negb (is_UploadResume r)) rs = true ->
    current_question s < 2 ->
    (List.length (questions s) <= List.length (answers s))%nat ->
    questions (serve_all rs s) = questions s /\
    current_question (serve_all rs s) = current_question s /\
    (List.length (answers s) <= List.length (answers (serve_all rs s)))%nat.
Proof.
  induction rs as [|r rs IH]; intros s U H L; [auto|].
  cbn in U. apply andb_prop in U. destruct U as (U & Us).
  apply negb_true_iff in U.
  destruct (stuck_serve r s U H L) as (Q & C & A).
  cbn [serve_all fold_left]. fold (serve_all rs (serve r s)).
  destruct (IH (serve r s) Us) as (Q' & C' & A');
    [rewrite C; lia | rewrite Q; lia |].
  repeat split; [congruence | congruence | lia].
Qed.

Lemma interview_stuck_witness :
  questions (serve_all [Sample.answer; NextQuestion Sample.speaks; Sample.answer;
                        GenerateFeedback Sample.groq_down]
               Scenario.one_failed_answer)
    = questions Scenario.one_failed_answer /\
  current_question (serve_all [Sample.answer; NextQuestion Sample.speaks; Sample.answer;
                               GenerateFeedback Sample.groq_down]
                      Scenario.one_failed_answer)
    = current_question Scenario.one_failed_answer /\
  (List.length (answers Scenario.one_failed_answer) <=
   List.length (answers (serve_all [Sample.answer; NextQuestion Sample.speaks;
                                    Sample.answer; GenerateFeedback Sample.groq_down]
                           Scenario.one_failed_answer)))%nat.
Proof.
  refine (@interview_stuck [Sample.answer; NextQuestion Sample.speaks; Sample.answer;
                            GenerateFeedback Sample.groq_down]
            Scenario.one_failed_answer _ _ _).
  - reflexivity.
  - vm_compute. reflexivity.
  - vm_compute. lia.
Defined.

(** X16.  In a reachable session, one failure of [transcribe_audio]
    after the transcript was recorded (the follow-up question could not
    be generated) ends the interview: the answer stays recorded without
    a question to follow, and no later request other than an upload
    changes the counter or the questions, even when the services work
    again. *)
Theorem failed_follow_up_blocks_interview :
  forall s file dg groq e rs,
    reachable s ->
    result_of (transcribe_audio file dg groq s) = Raise e ->
    answers (session_of (transcribe_audio file dg groq s)) <> answers s ->
    forallb (fun r => negb (is_UploadResume r)) rs = true ->
    let s' := serve_all rs (session_of (transcribe_audio file dg groq s)) in
    questions s' = questions s /\ current_question s' = current_question s.
Proof.
  intros s file dg groq e rs R F A U.
  apply reachable_inv in R. destruct R as (H0 & H1 & H2 & H3).
  destruct (transcribe_audio_cases file dg groq s) as [(E & _) | (t & _ & E & _ & Hr)];
    cbn in E; [rewrite E in A; congruence|].
  cbn. rewrite E in *.
  destruct (submit_answer_sessions groq t s)
    as [(S & H & _) | [(_ & _ & Ok) | (q & _ & _ & _ & Ok)]].
  2,3: rewrite Ok in Hr; congruence.
  rewrite S.
  destruct (@stuck_serve_all rs (record_answer t s) U) as (Q & C).
  - exact H.
  - cbn. rewrite length_app. cbn.
    destruct (questions s) as [|q0 qs] eqn:Eq; [cbn; lia|].
    assert (N : q0 :: qs <> []) by discriminate. specialize (H3 N). lia.
  - split; [exact Q|exact C].
Qed.

Lemma failed_follow_up_blocks_interview_witness :
  let s' :=
    serve_all [Sample.answer; Sample.answer]
      (session_of (transcribe_audio Sample.answer_wav
                     (Sample.hears (py "It is a lock.")) Sample.groq_down
                     Sample.started)) in
  questions s' = questions Sample.started /\
  current_question s' = current_question Sample.started.
Proof.
  refine (@failed_follow_up_blocks_interview Sample.started Sample.answer_wav
            (Sample.hears (py "It is a lock.")) Sample.groq_down
            (HTTPException 500 (StrOf (HTTPException 500 (Lit "Error transcribing audio"))))
            [Sample.answer; Sample.answer] _ _ _ _).
  - exists [Sample.upload]. reflexivity.
  - vm_compute. reflexivity.
  - vm_compute. discriminate.
  - reflexivity.
Defined.

(** ** The extracted question is part of the reply *)

(** X17.  When the JSON parser raises nothing but the [JSONDecodeError]
    that line 69 catches, and the text is not a JSON object with a
    [question] field, the question extracted is a string and a
    contiguous part of the text: extraction selects, it never
    rewrites. *)
Theorem extraction_is_excerpt :
  forall text,
    loads_caught text ->
    (forall v, ~ json_question text v) ->
    exists q, extract_question_from_response text = Return (PStr q) /\
              excerpt q text.
Proof.
  intros text C N. rewrite (extract_no_json C N). unfold extraction_fallback.
  pose proof (search_quoted text) as Sq.
  destruct (Re.search_group1 Re.QUOTED_QUESTION text) as [q|].
  { destruct Sq as (i & (pre & c & post & T & _) & _).
    exists q. split; [reflexivity|].
    exists (pre ++ [DQ]), ([DQ] ++ post). rewrite T, <- !app_assoc. reflexivity. }
  pose proof (search_sentence text) as Ss.
  destruct (Re.search_group1 Re.SENTENCE_QUESTION text) as [q|].
  { destruct Ss as (i & (pre & c & post & T & _) & _).
    destruct (strip_spec q) as (w1 & w2 & E & _).
    exists (strip q). split; [reflexivity|].
    exists (pre ++ w1), (w2 ++ post). rewrite T. rewrite E at 1.
    rewrite <- !app_assoc. reflexivity. }
  destruct (strip_spec text) as (w1 & w2 & E & _).
  exists (strip text). split; [reflexivity|]. exists w1, w2. exact E.
Qed.

Lemma extraction_is_excerpt_witness :
  exists q, extract_question_from_response Sample.prose_quoted = Return (PStr q) /\
            excerpt q Sample.prose_quoted.
Proof.
  refine (@extraction_is_excerpt Sample.prose_quoted _ _).
  - intros e L. vm_compute in L. inversion L. reflexivity.
  - intros v (d & L & _). vm_compute in L. discriminate.
Defined.

(** ** Calls to the external services *)

Lemma submit_answer_calls groq t s :
  calls_of (submit_answer groq t s) = [] \/
  exists p, calls_of (submit_answer groq t s) = [GroqCall p].
Proof. unfold submit_answer. run_handler; eauto. Qed.

(** X18.  No handler calls a service twice or out of order:
    [upload_resume] calls nothing, or the PDF reader, or the PDF reader
    and then the language model; [get_next_question] calls at most the
    speech service, once; [transcribe_audio] calls nothing, or Deepgram,
    or Deepgram and then the language model; [generate_feedback] calls
    at most the language model, once. *)
Theorem services_called_once :
  forall file pdf dg tts groq s,
    (calls_of (upload_resume file pdf groq s) = [] \/
     calls_of (upload_resume file pdf groq s) = [PdfReaderCall] \/
     exists p, calls_of (upload_resume file pdf groq s) = [PdfReaderCall; GroqCall p]) /\
    (calls_of (get_next_question tts s) = [] \/
     exists q, calls_of (get_next_question tts s) = [GTTSCall q]) /\
    (calls_of (transcribe_audio file dg groq s) = [] \/
     calls_of (transcribe_audio file dg groq s) = [DeepgramCall] \/
     exists p, calls_of (transcribe_audio file dg groq s) = [DeepgramCall; GroqCall p]) /\
    (calls_of (generate_feedback groq s) = [] \/
     exists p, calls_of (generate_feedback groq s) = [GroqCall p]).
Proof.
  intros file pdf dg tts groq s. split; [|split; [|split]].
  - unfold upload_resume. run_handler; eauto.
  - unfold get_next_question. run_handler; eauto.
  - unfold transcribe_audio. unfold_handler.
    destruct (filename file) as [[|c name]|]; cbn; eauto.
    destruct (file_content file) as [|b bytes]; cbn; eauto.
    destruct (dg (b :: bytes) (content_type file)) as [t|]; cbn; eauto.
    destruct (submit_answer_calls groq t s) as [E | (p & E)];
      destruct (submit_answer groq t s) as [[[u|e] s'] cs]; cbn in E |- *;
      subst cs; cbn; eauto.
  - unfold generate_feedback, generate_feedback_body. run_handler; eauto.
Qed.

(** ** Extraction of a clean question *)

Lemma startswith_cons a p b s :
  startswith (b :: s) (a :: p) = true -> a = b /\ startswith s p = true.
Proof.
  cbn. intros H. apply andb_prop in H. destruct H as (E & H).
  apply N.eqb_eq in E. auto.
Qed.

Lemma is_ws_isspace c : Json.is_ws c = true -> isspace c = true.
Proof.
  unfold Json.is_ws. intros H.
  repeat (apply orb_prop in H; destruct H as [H | H]).
  all: apply N.eqb_eq in H; subst c; reflexivity.
Qed.

(** A token the lexer reads first and no value starts with. *)
Lemma parse_closing t ts :
  t = Json.TRBrace \/ t = Json.TRBracket \/ t = Json.TComma \/ t = Json.TColon ->
  Json.parse Json.EValue [] (t :: ts) = None.
Proof. intros [-> | [-> | [-> | ->]]]; reflexivity. Qed.

(** On a text that starts neither with white space nor the way a JSON
    value does, the decoder stops at the first character. *)
Lemma loads_not_value (x : char) (r : str) :
  isspace x = false -> opens_json_value (x :: r) = false ->
  Json.loads (x :: r) = Raise JSONDecodeError.
Proof.
  intros Hs Ho. cbn [opens_json_value] in Ho.
  repeat (apply orb_false_elim in Ho; destruct Ho as [Ho ?]).
  assert (W : Json.is_ws x = false).
  { destruct (Json.is_ws x) eqn:E; [|reflexivity].
    apply is_ws_isspace in E. congruence. }
  assert (M : startswith (x :: r) (py "-Infinity") = false).
  { change (py "-Infinity") with (ch "-" :: py "Infinity"). cbn [startswith].
    rewrite (N.eqb_sym (ch "-") x).
    match goal with E : (x =? ch "-")%N = false |- _ => now rewrite E end. }
  assert (T : forall t,
             t = Json.TRBrace \/ t = Json.TRBracket \/ t = Json.TComma \/ t = Json.TColon ->
             match Json.cons_tok t (Json.lex (Json.LxTok []) r) with
             | Some ts =>
                 match Json.parse Json.EValue [] ts with
                 | Some v => Return v
                 | None => Raise JSONDecodeError
                 end
             | None => Raise JSONDecodeError
             end = Raise JSONDecodeError).
  { intros t Ht. destruct (Json.lex (Json.LxTok []) r) as [ts|]; [|reflexivity].
    cbn [Json.cons_tok]. now rewrite parse_closing. }
  unfold Json.loads. cbn [Json.lex]. unfold Json.starts_number.
  repeat match goal with
         | H : _ = false |- _ => rewrite H
         end.
  cbn [orb andb].
  destruct (x =? RBRACE)%N; [apply T; auto|].
  destruct (x =? ch "]")%N; [apply T; auto|].
  destruct (x =? ch ",")%N; [apply T; auto|].
  destruct (x =? ch ":")%N; [apply T; auto|].
  destruct r as [|c1 [|c2 r2]]; try reflexivity.
  repeat match goal with
         | H : startswith _ _ = false |- _ => rewrite H
         end.
  destruct r2 as [|c3 r3]; [reflexivity|].
  destruct r3 as [|c4 r4]; [reflexivity|].
  destruct r4 as [|c5 [|c6 [|c7 r7]]]; try reflexivity.
  destruct r7 as [|c8 r8]; reflexivity.
Qed.

Lemma strip_clean (x : char) (c : str) :
  isspace x = false -> strip (x :: c ++ [QMARK]) = x :: c ++ [QMARK].
Proof.
  intros H. unfold strip, rstrip. cbn [lstrip]. rewrite H.
  change (x :: c ++ [QMARK]) with ((x :: c) ++ [QMARK]).
  rewrite rev_app_distr. cbn [rev app lstrip].
  change (isspace QMARK) with false. cbn iota.
  change (QMARK :: rev c ++ [x]) with (rev [QMARK] ++ rev (x :: c)).
  rewrite <- rev_app_distr. apply rev_involutive.
Qed.

(** X19.  A reply that is just one clean question is stored as it is:
    when the reply does not start with white space nor the way a JSON
    value does (so that the JSON parser gives up at its first
    character), holds no double quote, no dot and no exclamation mark,
    and has a single question mark, at its end, extraction followed by
    the question-mark step returns the reply itself. *)
Theorem clean_question_kept :
  forall (x : char) (c : str),
    isspace x = false ->
    opens_json_value (x :: c ++ [QMARK]) = false ->
    ~ In DQ (x :: c) ->
    (forall y, In y (x :: c) -> y <> DOT /\ y <> BANG /\ y <> QMARK) ->
    extracted_question (x :: c ++ [QMARK]) = Return (x :: c ++ [QMARK]).
Proof.
  intros x c Hx Ho Hq Hc. set (q := x :: c ++ [QMARK]).
  assert (L : Json.loads q = Raise JSONDecodeError) by now apply loads_not_value.
  assert (C : loads_caught q).
  { intros e H. rewrite L in H. inversion H. reflexivity. }
  assert (N : forall v, ~ json_question q v).
  { intros v (d & H & _). rewrite L in H. discriminate. }
  assert (Q : Re.search_group1 Re.QUOTED_QUESTION q = None).
  { apply no_quoted_question_search. intros i q' (pre & c' & post & T & _).
    assert (I : In DQ q) by (rewrite T; apply in_or_app; right; left; reflexivity).
    unfold q in I. change (x :: c ++ [QMARK]) with ((x :: c) ++ [QMARK]) in I.
    apply in_app_or in I. destruct I as [I | [I | []]]; [auto | discriminate]. }
  assert (S : Re.search_group1 Re.SENTENCE_QUESTION q = Some q).
  { apply first_sentence_question_search. exists 0%nat. split; [|intros; lia].
    exists [], (x :: c), []. repeat split; auto.
    - cbn. now rewrite app_nil_r.
    - discriminate.
    - now apply Hc.
    - now apply Hc.
    - now apply Hc. }
  unfold extracted_question. rewrite (extract_no_json C N).
  unfold extraction_fallback. rewrite Q, S. cbn [bindR ensure_question_mark].
  unfold q at 1 2 3. rewrite strip_clean by exact Hx.
  change (x :: c ++ [QMARK]) with ((x :: c) ++ [QMARK]).
  now rewrite endswith_snoc.
Qed.

Lemma clean_question_kept_witness :
  extracted_question (ch "W" :: py "hy use one" ++ [QMARK])
  = Return (ch "W" :: py "hy use one" ++ [QMARK]).
Proof.
  refine (@clean_question_kept (ch "W") (py "hy use one") _ _ _ _).
  - reflexivity.
  - vm_compute. reflexivity.
  - vm_compute. intuition discriminate.
  - intros y H. vm_compute in H.
    repeat (destruct H as [H | H]; [subst y; repeat split; discriminate|]).
    destruct H.
Defined.

(** ** When the handlers succeed *)

Section Success.
Local Arguments range : simpl never.
Local Arguments conversation_entries : simpl never.
Local Arguments extract_question_from_response : simpl never.
Local Arguments strip : simpl never.

(** X20.  [upload_resume] succeeds whenever the file name ends in
    [.pdf], the file is not empty, every page gives its text, the text
    is not blank and the language model replies with a text from which
    a question can be extracted: it then returns that question, the
    session is the fresh one holding the resume text and the question,
    and the previous session plays no part. *)
Theorem upload_resume_succeeds :
  forall file pdf groq s name texts content q,
    filename file = Some name -> endswith name (py ".pdf") = true ->
    file_content file <> [] ->
    pdf (file_content file) = Some (map Some texts) ->
    strip (List.concat texts) <> [] ->
    groq (FirstQuestionPrompt (List.concat texts)) = GroqContent content ->
    extracted_question (strip content) = Return q ->
    upload_resume file pdf groq s =
      (Return {| upload_message := "Resume processed successfully";
                 upload_question := q |},
       started_session (List.concat texts) q,
       [PdfReaderCall; GroqCall (FirstQuestionPrompt (List.concat texts))]).
Proof.
  intros file pdf groq s name texts content q Hn He Hc Hp Ht Hg Hq.
  assert (X : extract_pages (map Some texts) [] = Return (List.concat texts))
    by (apply extract_pages_Return; eauto).
  unfold extracted_question, bindR in Hq.
  destruct (extract_question_from_response (strip content)) as [v|] eqn:Ev;
    [|discriminate].
  unfold upload_resume. unfold_handler.
  rewrite Hn. cbn. cbn in He. rewrite He. cbn.
  destruct (file_content file) as [|b bs] eqn:Ec; [congruence|].
  rewrite Hp. cbn. rewrite X. cbn.
  destruct (strip (List.concat texts)) eqn:Es; [congruence|].
  rewrite Hg. cbn. rewrite Ev. cbn. rewrite Hq. reflexivity.
Qed.

Lemma upload_resume_succeeds_witness :
  upload_resume Sample.resume_pdf Sample.one_page (Sample.groq_says Sample.prose_quoted)
    Scenario.two_failed_answers =
    (Return {| upload_message := "Resume processed successfully";
               upload_question := py "Explain your caching design?" |},
     started_session (List.concat [py "Python developer"])
       (py "Explain your caching design?"),
     [PdfReaderCall;
      GroqCall (FirstQuestionPrompt (List.concat [py "Python developer"]))]).
Proof.
  refine (@upload_resume_succeeds Sample.resume_pdf Sample.one_page
            (Sample.groq_says Sample.prose_quoted) Scenario.two_failed_answers
            (py "resume.pdf") [py "Python developer"] Sample.prose_quoted
            (py "Explain your caching design?") _ _ _ _ _ _ _).
  - reflexivity.
  - vm_compute. reflexivity.
  - vm_compute. discriminate.
  - reflexivity.
  - vm_compute. discriminate.
  - reflexivity.
  - vm_compute. reflexivity.
Defined.

Lemma submit_answer_follow_up groq t s content q :
  current_question s < 2 ->
  (List.length (answers s) < List.length (questions s))%nat ->
  groq (FollowUpPrompt (resume_text s)
          (join [NEWLINE] (qa_entries (questions s) (answers s ++ [t]))))
    = GroqContent content ->
  extracted_question (strip content) = Return q ->
  submit_answer groq t s =
    (Return tt,
     set_current_question (current_question s + 1)
       (record_question q (record_answer t s)),
     [GroqCall (FollowUpPrompt (resume_text s)
                  (join [NEWLINE] (qa_entries (questions s) (answers s ++ [t]))))]).
Proof.
  intros H L Hg Hq.
  assert (Z : conversation_entries (questions s) (answers s ++ [t])
                (range (List.length (answers s ++ [t]))) =
              Return (qa_entries (questions s) (answers s ++ [t]))).
  { apply conversation_entries_zip. rewrite length_app. cbn. lia. }
  unfold extracted_question, bindR in Hq.
  destruct (extract_question_from_response (strip content)) as [v|] eqn:Ev;
    [|discriminate].
  unfold submit_answer. unfold_handler. cbn -[qa_entries join].
  destruct (Z.ltb_spec (current_question s) 2); [|lia].
  cbn -[qa_entries join]. rewrite Z. cbn -[qa_entries join].
  rewrite Hg. cbn -[qa_entries join]. rewrite Ev. cbn -[qa_entries join].
  rewrite Hq. reflexivity.
Qed.

(** X21.  While the counter is below 2 and the answer has a question of
    its own, [transcribe_audio] succeeds whenever Deepgram gives a
    transcript and the language model replies with a text from which a
    question can be extracted: the transcript is returned and recorded,
    the extracted question is stored after it, and the counter advances
    by one. *)
Theorem follow_up_stored :
  forall file dg groq s name t content q,
    filename file = Some name -> name <> [] -> file_content file <> [] ->
    dg (file_content file) (content_type file) = Some t ->
    current_question s < 2 ->
    (List.length (answers s) < List.length (questions s))%nat ->
    groq (FollowUpPrompt (resume_text s)
            (join [NEWLINE] (qa_entries (questions s) (answers s ++ [t]))))
      = GroqContent content ->
    extracted_question (strip content) = Return q ->
    transcribe_audio file dg groq s =
      (Return t,
       set_current_question (current_question s + 1)
         (record_question q (record_answer t s)),
       [DeepgramCall;
        GroqCall (FollowUpPrompt (resume_text s)
                    (join [NEWLINE] (qa_entries (questions s) (answers s ++ [t]))))]).
Proof.
  intros file dg groq s name t content q F N C D H L Hg Hq.
  rewrite (@transcribe_audio_submit file dg groq s name t F N C D).
  now rewrite (@submit_answer_follow_up groq t s content q H L Hg Hq).
Qed.

Lemma follow_up_stored_witness :
  transcribe_audio Sample.answer_wav (Sample.hears (py "It is a lock."))
    (Sample.groq_says (py "Why use one?")) Sample.started =
    (Return (py "It is a lock."),
     set_current_question (current_question Sample.started + 1)
       (record_question (py "Why use one?")
          (record_answer (py "It is a lock.") Sample.started)),
     [DeepgramCall;
      GroqCall (FollowUpPrompt (resume_text Sample.started)
                  (join [NEWLINE]
                     (qa_entries (questions Sample.started)
                        (answers Sample.started ++ [py "It is a lock."]))))]).
Proof.
  refine (@follow_up_stored Sample.answer_wav (Sample.hears (py "It is a lock."))
            (Sample.groq_says (py "Why use one?")) Sample.started
            (py "audio.wav") (py "It is a lock.") (py "Why use one?")
            (py "Why use one?") _ _ _ _ _ _ _ _).
  - reflexivity.
  - vm_compute. discriminate.
  - vm_compute. discriminate.
  - reflexivity.
  - vm_compute. reflexivity.
  - vm_compute. lia.
  - reflexivity.
  - vm_compute. reflexivity.
Defined.

End Success.

(** * Part IV: the client *)

Lemma next_question_answers tts s :
  match result_of (get_next_question tts s) with
  | Return Completed => questions s <> [] /\ 3 <= current_question s
  | Return (Question _ _ n total) =>
      questions s <> [] /\ current_question s < 3 /\
      n = current_question s + 1 /\ total = 3
  | Raise _ => True
  end.
Proof.
  unfold get_next_question. run_handler; auto.
  all: repeat match goal with
         | H : (_ >=? _) = true |- _ => rewrite Z.geb_leb in H; apply Z.leb_le in H
         | H : (_ >=? _) = false |- _ => rewrite Z.geb_leb in H; apply Z.leb_gt in H
         end.
  all: repeat split; auto; try discriminate; try lia.
Qed.

Lemma main_serves i st b :
  snd (fst (Client.main i st b)) = serve_all (snd (Client.main i st b)) b.
Proof.
  unfold Client.main.
  destruct (Client.check_server_connection i); cbn [negb]; [|reflexivity].
  destruct (Client.interview_started st); cbn [negb].
  - destruct (Client.interview_completed st); cbn [negb]; [reflexivity|].
    destruct (Client.answered i Client.next_question_ep); cbn [negb]; [|reflexivity].
    destruct (result_of (get_next_question (Client.tts i) b)) as [[|q a n t]|e];
      try reflexivity.
    destruct (Client.audio_recorder i) as [[|x bytes]|]; try reflexivity.
    destruct (Client.submit_answer_button i && Client.answered i Client.transcribe_ep);
      reflexivity.
  - destruct (Client.uploaded_file i) as [f|]; [|reflexivity].
    destruct (endswith (Client.name f) (py ".pdf")); cbn [negb]; [|reflexivity].
    destruct (Client.start_interview i); cbn [negb]; [|reflexivity].
    destruct (Client.answered i Client.upload_resume_ep); cbn [negb]; reflexivity.
Qed.

Lemma runs_serve l : forall st b,
  snd (Client.runs l st b) = serve_all (Client.requests l st b) b.
Proof.
  induction l as [|i l IH]; intros st b; [reflexivity|].
  cbn [Client.runs Client.requests].
  pose proof (main_serves i st b) as M.
  destruct (Client.main i st b) as [[st' b'] served]. cbn in M. subst b'.
  rewrite IH. unfold serve_all. now rewrite fold_left_app.
Qed.

(** ** Requests of the client *)

Lemma main_well_formed i st b :
  Forall Client.well_formed (snd (Client.main i st b)).
Proof.
  unfold Client.main.
  destruct (Client.check_server_connection i); cbn [negb]; [|constructor].
  destruct (Client.interview_started st); cbn [negb].
  - destruct (Client.interview_completed st); cbn [negb].
    + destruct (_ && _); repeat constructor.
    + destruct (Client.answered i Client.next_question_ep); cbn [negb]; [|constructor].
      destruct (result_of (get_next_question (Client.tts i) b)) as [[|q a n t]|e];
        try (repeat constructor).
      destruct (Client.audio_recorder i) as [[|x bytes]|]; try (repeat constructor).
      destruct (Client.submit_answer_button i && Client.answered i Client.transcribe_ep);
        repeat constructor; cbn; auto. discriminate.
  - destruct (Client.uploaded_file i) as [f|]; [|constructor].
    destruct (endswith (Client.name f) (py ".pdf")) eqn:E; cbn [negb]; [|constructor].
    destruct (Client.start_interview i); cbn [negb]; [|constructor].
    destruct (Client.answered i Client.upload_resume_ep); cbn [negb]; [|constructor].
    repeat constructor. cbn [Client.well_formed]. eauto.
Qed.

Lemma client_requests_well_formed l : forall st b,
  Forall Client.well_formed (Client.requests l st b).
Proof.
  induction l as [|i l IH]; intros st b; [constructor|].
  cbn [Client.requests].
  pose proof (main_well_formed i st b) as W.
  destruct (Client.main i st b) as [[st' b'] served]. cbn in W.
  apply Forall_app. split; [exact W | apply IH].
Qed.

(** The name under which a file whose name ends in [.pdf] goes out. *)
Lemma as_upload_name (f : Client.UploadedFile) :
  endswith (Client.name f) (py ".pdf") = true ->
  filename (Client.as_upload f)
  = Some (if startswith (Client.name f) (py "<") then py "file"
          else Client.basename (Client.name f)) /\
  endswith (Client.basename (Client.name f)) (py ".pdf") = true.
Proof.
  unfold endswith. intros E.
  change (rev (py ".pdf")) with [ch "f"; ch "d"; ch "p"; ch "."] in E |- *.
  destruct (rev (Client.name f)) as [|l1 [|l2 [|l3 [|l4 t]]]] eqn:R;
    try (cbn in E; rewrite ?andb_false_r in E; discriminate).
  repeat (apply startswith_cons in E; destruct E as [? E]). subst l1 l2 l3 l4.
  assert (B : Client.basename (Client.name f)
              = rev (Client.upto_slash t) ++ [ch "."; ch "p"; ch "d"; ch "f"]).
  { unfold Client.basename. rewrite R.
    change (Client.upto_slash (ch "f" :: ch "d" :: ch "p" :: ch "." :: t))
      with (ch "f" :: ch "d" :: ch "p" :: ch "." :: Client.upto_slash t).
    cbn [rev]. now rewrite <- !app_assoc. }
  split.
  - unfold Client.as_upload, Client.guess_filename. cbn [filename].
    destruct (Client.name f) as [|first rest]; [cbn in R; discriminate|].
    rewrite R, B. change (py "<") with [ch "<"]. cbn [startswith].
    replace (startswith rest []) with true by (destruct rest; reflexivity).
    rewrite andb_true_r, (N.eqb_sym (ch "<") first).
    destruct (first =? ch "<")%N; cbn [negb andb]; [reflexivity|].
    change (negb (ch "f" =? ch ">")%N) with true. cbn iota.
    destruct (rev (Client.upto_slash t)); reflexivity.
  - rewrite B, rev_app_distr. cbn [rev app startswith].
    rewrite !N.eqb_refl. cbn [andb].
    now destruct (rev (rev (Client.upto_slash t))).
Qed.

Lemma upload_name_check f pdf groq s n :
  filename f = Some n ->
  (result_of (upload_resume f pdf groq s)
   = Raise (HTTPException 400 (Lit "Only PDF files are supported"))
   <-> endswith n (py ".pdf") = false).
Proof.
  intros F. destruct (endswith n (py ".pdf")) eqn:E.
  - split; [|discriminate].
    unfold upload_resume. unfold_handler. rewrite F. cbn.
    cbn in E. rewrite E. cbn.
    repeat (try case_scrutinee; cbn); discriminate.
  - split; [reflexivity|]. intros _.
    unfold upload_resume. unfold_handler. rewrite F. cbn.
    cbn in E. rewrite E. reflexivity.
Qed.

Lemma transcribe_file_accepted f dg groq s :
  filename f = Some (py "audio.wav") -> file_content f <> [] ->
  ~ file_refused (Transcribe f dg groq) s.
Proof.
  intros F C. cbn [file_refused].
  unfold transcribe_audio. unfold_handler. rewrite F. cbn.
  destruct (file_content f) as [|x bytes]; [congruence|]. cbn.
  destruct (dg _ _) as [t|]; cbn; [|intros [H | H]; discriminate].
  destruct (submit_answer groq t s) as [[[u|e] s'] cs]; cbn;
    intros [H | H]; discriminate.
Qed.

(** X23.  Whatever the user does, an answer the client sends is never
    turned down by the server for its file (it is always the file
    [audio.wav], never empty: the checks of lines 210 and 214 pass).  A
    resume the client sends is a file whose name ends in [.pdf]; the
    server turns it down for its name (line 90) exactly when that name
    starts with [<], for then it goes out under the name [file]. *)
Theorem client_file_checks :
  forall l st b r s,
    In r (Client.requests l st b) ->
    match r with
    | UploadResume f' _ _ =>
        exists f, f' = Client.as_upload f /\
                  endswith (Client.name f) (py ".pdf") = true /\
                  (file_refused r s <->
                   startswith (Client.name f) (py "<") = true)
    | Transcribe _ _ _ => ~ file_refused r s
    | _ => True
    end.
Proof.
  intros l st b r s I.
  pose proof (client_requests_well_formed l st b) as W.
  rewrite Forall_forall in W. specialize (W r I).
  destruct r as [f' pdf groq | tts | f dg groq | groq]; cbn [Client.well_formed] in W;
    [|exact W| |exact W].
  - destruct W as (f & -> & E). exists f. split; [reflexivity|]. split; [exact E|].
    destruct (as_upload_name f E) as (F & Eb). cbn [file_refused].
    rewrite (@upload_name_check (Client.as_upload f) pdf groq s _ F).
    destruct (startswith (Client.name f) (py "<")).
    + split; reflexivity.
    + rewrite Eb. split; discriminate.
  - destruct W as (F & C). now apply transcribe_file_accepted.
Qed.

Lemma client_file_checks_witness :
  exists f,
    Client.as_upload Visit.bracket_resume = Client.as_upload f /\
    endswith (Client.name f) (py ".pdf") = true /\
    (file_refused
       (UploadResume (Client.as_upload Visit.bracket_resume) Sample.one_page
          (Sample.groq_says (py "What is a mutex?")))
       InterviewState_init
     <-> startswith (Client.name f) (py "<") = true).
Proof.
  refine (@client_file_checks [Visit.start_bracket]
            Client.session_state_init InterviewState_init
            (UploadResume (Client.as_upload Visit.bracket_resume) Sample.one_page
               (Sample.groq_says (py "What is a mutex?")))
            InterviewState_init _).
  left. reflexivity.
Defined.

(** The resume named [<cv.pdf] passes the client's check and is turned
    down by the server. *)
Lemma bracket_resume_refused :
  endswith (Client.name Visit.bracket_resume) (py ".pdf") = true /\
  file_refused
    (UploadResume (Client.as_upload Visit.bracket_resume) Sample.one_page
       (Sample.groq_says (py "What is a mutex?")))
    InterviewState_init.
Proof. split; vm_compute; reflexivity. Qed.

(** ** Sessions driven by the client *)

Lemma upload_on_track_or_stuck file pdf groq b :
  on_track b \/ stuck b ->
  on_track (session_of (upload_resume file pdf groq b)) \/
  stuck (session_of (upload_resume file pdf groq b)).
Proof.
  intros H.
  destruct (upload_resume_cases file pdf groq b)
    as [(E & _) | [(text & E & _) | (pages & text & q & _ & _ & _ & E & _)]];
    rewrite E.
  - exact H.
  - right. split; cbn; lia.
  - left. repeat split; cbn; try lia. discriminate.
Qed.

Lemma transcribe_on_track file dg groq b :
  on_track b -> current_question b < 3 ->
  on_track (serve (Transcribe file dg groq) b) \/
  stuck (serve (Transcribe file dg groq) b).
Proof.
  intros (Q & R & A & L) C.
  destruct (serve_transcribe_sessions file dg groq b)
    as [E | (t & [(E & H) | [(E & H) | (q & _ & H & E)]])]; rewrite E.
  - left. repeat split; auto; lia.
  - right. split; cbn; [lia|]. rewrite length_app. cbn. lia.
  - left. repeat split; cbn; auto; try lia. rewrite length_app. cbn. lia.
  - left. repeat split; cbn; try lia.
    + intros N. apply app_eq_nil in N. destruct N; discriminate.
    + rewrite length_app. cbn. lia.
    + rewrite length_app. cbn. lia.
Qed.

Lemma transcribe_stuck file dg groq b :
  stuck b ->
  stuck (serve (Transcribe file dg groq) b) /\
  questions (serve (Transcribe file dg groq) b) = questions b /\
  current_question (serve (Transcribe file dg groq) b) = current_question b.
Proof.
  intros (C & L).
  destruct (@stuck_serve (Transcribe file dg groq) b eq_refl) as (Q & E & A);
    [lia | exact L |].
  repeat split; auto; try lia. rewrite Q. lia.
Qed.

Lemma client_inv_main i st b :
  client_inv st b ->
  client_inv (fst (fst (Client.main i st b))) (snd (fst (Client.main i st b))).
Proof.
  intros (T & D). unfold Client.main.
  destruct (Client.check_server_connection i); cbn [negb]; [|split; assumption].
  destruct (Client.interview_started st) eqn:Es; cbn [negb].
  - destruct (Client.interview_completed st) eqn:Ec; cbn [negb].
    + cbn [fst snd].
      assert (B : serve_all
                    (if Client.generate_feedback_button i &&
                        Client.answered i Client.generate_feedback_ep
                     then [GenerateFeedback (Client.groq i)] else []) b = b).
      { destruct (_ && _); [apply generate_feedback_frame | reflexivity]. }
      rewrite B. split; [exact T|].
      destruct (Client.start_new_interview i); cbn; [discriminate|].
      intros _. split; [exact Es | exact (proj2 (D eq_refl))].
    + assert (K : forall b', on_track b' \/ stuck b' -> client_inv st b')
        by (intros b' T'; split; [exact T' | rewrite Ec; discriminate]).
      destruct (Client.answered i Client.next_question_ep); cbn [negb];
        [|apply K, T].
      pose proof (next_question_answers (Client.tts i) b) as N.
      rewrite get_next_question_session.
      destruct (result_of (get_next_question (Client.tts i) b)) as [[|q a n t]|e].
      * destruct N as (_ & N). cbn. split; [exact T|]. intros _. split; [reflexivity|].
        destruct T as [(_ & R & _) | (R & _)]; lia.
      * destruct N as (_ & N & _).
        destruct (Client.audio_recorder i) as [[|x bytes]|]; cbn [fst snd];
          try (apply K, T).
        destruct (Client.submit_answer_button i &&
                  Client.answered i Client.transcribe_ep); cbn [fst snd];
          [|apply K, T].
        apply K. destruct T as [T | T].
        -- now apply transcribe_on_track.
        -- right. now apply transcribe_stuck.
      * apply K, T.
  - assert (Ec : Client.interview_completed st = false).
    { destruct (Client.interview_completed st); [|reflexivity].
      destruct (D eq_refl). discriminate. }
    assert (K : forall b', on_track b' \/ stuck b' -> client_inv st b')
      by (intros b' T'; split; [exact T' | rewrite Ec; discriminate]).
    destruct (Client.uploaded_file i) as [f|]; [|apply K, T].
    destruct (endswith (Client.name f) (py ".pdf")); cbn [negb]; [|apply K, T].
    destruct (Client.start_interview i); cbn [negb]; [|apply K, T].
    destruct (Client.answered i Client.upload_resume_ep); cbn [negb]; [|apply K, T].
    cbn [fst snd]. split; [now apply upload_on_track_or_stuck|].
    destruct (result_of _); cbn; rewrite Ec; discriminate.
Qed.

Lemma client_inv_runs l : forall st b,
  client_inv st b ->
  client_inv (fst (Client.runs l st b)) (snd (Client.runs l st b)).
Proof.
  induction l as [|i l IH]; intros st b H; [exact H|].
  cbn [Client.runs]. pose proof (client_inv_main i H) as M.
  destruct (Client.main i st b) as [[st' b'] served]. now apply IH.
Qed.

Lemma client_inv_init : client_inv Client.session_state_init InterviewState_init.
Proof.
  split; [right; split; cbn; lia | discriminate].
Qed.

(** X24.  As long as the requests come from one session of the client,
    the server's counter stays between 0 and 3, whatever the user does
    and whatever the services do: the client asks for the next question
    before every answer and sends no answer once the server has
    reported the interview as completed. *)
Theorem client_counter_in_range :
  forall l,
    0 <= current_question
           (snd (Client.runs l Client.session_state_init InterviewState_init)) <= 3.
Proof.
  intros l.
  destruct (client_inv_runs l client_inv_init) as ([(_ & R & _) | (R & _)] & _);
    lia.
Qed.

(** X25.  When the client shows the interview as completed, the server
    holds exactly three questions and three answers and its counter is
    3: the feedback is then asked for a complete interview. *)
Theorem client_completed_interview :
  forall l,
    let st := fst (Client.runs l Client.session_state_init InterviewState_init) in
    let b := snd (Client.runs l Client.session_state_init InterviewState_init) in
    Client.interview_completed st = true ->
    current_question b = 3 /\
    List.length (questions b) = 3%nat /\ List.length (answers b) = 3%nat.
Proof.
  intros l st b C.
  destruct (client_inv_runs l client_inv_init) as (T & D).
  destruct (D C) as (_ & E). fold b in T, E.
  destruct T as [(_ & _ & A & Q) | (R & _)]; [|lia].
  repeat split; [exact E | lia | lia].
Qed.

Lemma client_completed_interview_witness :
  let l := [Visit.start; Visit.answer (Sample.groq_says (py "Why use one?"));
            Visit.answer (Sample.groq_says (py "Why use one?"));
            Visit.answer Sample.groq_down; Visit.idle] in
  let b := snd (Client.runs l Client.session_state_init InterviewState_init) in
  current_question b = 3 /\
  List.length (questions b) = 3%nat /\ List.length (answers b) = 3%nat.
Proof.
  refine (@client_completed_interview
            [Visit.start; Visit.answer (Sample.groq_says (py "Why use one?"));
             Visit.answer (Sample.groq_says (py "Why use one?"));
             Visit.answer Sample.groq_down; Visit.idle] _).
  vm_compute. reflexivity.
Defined.

Lemma main_stuck i st b :
  Client.interview_started st = true ->
  Client.interview_completed st = false ->
  stuck b ->
  fst (fst (Client.main i st b)) = st /\
  stuck (snd (fst (Client.main i st b))) /\
  questions (snd (fst (Client.main i st b))) = questions b /\
  current_question (snd (fst (Client.main i st b))) = current_question b.
Proof.
  intros Es Ec S. unfold Client.main. rewrite Es, Ec. cbn [negb].
  destruct (Client.check_server_connection i); cbn [negb]; [|auto].
  destruct (Client.answered i Client.next_question_ep); cbn [negb]; [|auto].
  pose proof (next_question_answers (Client.tts i) b) as N.
  rewrite get_next_question_session.
  destruct (result_of (get_next_question (Client.tts i) b)) as [[|q a n t]|e].
  - destruct S as (R & _). lia.
  - destruct (Client.audio_recorder i) as [[|x bytes]|]; cbn [fst snd]; auto.
    destruct (Client.submit_answer_button i && Client.answered i Client.transcribe_ep);
      cbn [fst snd]; auto.
    split; [reflexivity|]. now apply transcribe_stuck.
  - auto.
Qed.

(** X26.  Once the session on the server is stuck during an interview
    (an answer was recorded and the follow-up question could not be
    generated), the client can do nothing about it: whatever the user
    does and however the services behave from then on, the page stays
    on the same question, the interview is never shown as completed, and
    the button that starts a new interview, which only the completed
    page has, is never reached. *)
Theorem client_never_recovers :
  forall l st b,
    Client.interview_started st = true ->
    Client.interview_completed st = false ->
    stuck b ->
    fst (Client.runs l st b) = st /\
    questions (snd (Client.runs l st b)) = questions b /\
    current_question (snd (Client.runs l st b)) = current_question b.
Proof.
  induction l as [|i l IH]; intros st b Es Ec S; [auto|].
  cbn [Client.runs].
  destruct (@main_stuck i st b Es Ec S) as (E & S' & Q & C).
  destruct (Client.main i st b) as [[st' b'] served]. cbn [fst snd] in *. subst st'.
  destruct (IH st b' Es Ec S') as (E' & Q' & C').
  repeat split; congruence.
Qed.

Lemma client_never_recovers_witness :
  let l := [Visit.answer (Sample.groq_says (py "Why use one?")); Visit.idle;
            Visit.answer (Sample.groq_says (py "Why use one?"))] in
  fst (Client.runs l Visit.interviewing Scenario.one_failed_answer)
    = Visit.interviewing /\
  questions (snd (Client.runs l Visit.interviewing Scenario.one_failed_answer))
    = questions Scenario.one_failed_answer /\
  current_question (snd (Client.runs l Visit.interviewing Scenario.one_failed_answer))
    = current_question Scenario.one_failed_answer.
Proof.
  refine (@client_never_recovers
            [Visit.answer (Sample.groq_says (py "Why use one?")); Visit.idle;
             Visit.answer (Sample.groq_says (py "Why use one?"))]
            Visit.interviewing Scenario.one_failed_answer _ _ _).
  - reflexivity.
  - reflexivity.
  - split; vm_compute; [split; [discriminate | reflexivity] | lia].
Defined.
